(** * The rule registry of the kuiper control server

    A shallow embedding of [xstream/server/server/server.go]: the global
    [registry] (a Go map from rule name to [*RuleState]), the RPC handlers
    of [Server], the helper [stopQuery], the goroutine spawned by
    [doStartRule] and the ticker loop started by [init].

    Pointers are kept as pointers: a [*RuleState] is an index into
    [rule_heap], a [*xstream.TopologyNew] an index into [topo_heap].  A
    dereference of an index that is not allocated is a Go run-time panic,
    the [None] of the monad [M].  Cells are never freed, and a topology
    that [ExecQuery] or [ExecInitRule] returns is a new cell.  The packages the file imports
    ([xstream], [processors], [sinks], [fmt], [encoding/json]) are not
    part of the file; what the handlers call in them is taken as the
    operations of the classes [TopologyOps], [RuleProcessor] and [GoLib],
    and every theorem holds for all their instances. *)

From Stdlib Require Import ZArith Ascii String.
From stdpp Require Import gmap strings list fin_maps.

Open Scope string_scope.
Open Scope list_scope.

(** ** Go values *)

(** A non-nil Go [error].  The two sentinels of package [context] are
    compared by identity in [GetStatusRule]; every other error value is
    an [errorString] and differs from both, whatever its text. *)
Inductive error : Type :=
  | context_Canceled
  | context_DeadlineExceeded
  | errorString (msg : string).

(** [err.Error()] *)
Definition Error (e : error) : string :=
  match e with
  | context_Canceled => "context canceled"
  | context_DeadlineExceeded => "context deadline exceeded"
  | errorString msg => msg
  end.

(** [%v] applied to a possibly nil error. *)
Definition fmt_v_error (e : option error) : string :=
  match e with
  | None => "<nil>"
  | Some e => Error e
  end.

(** The pair [(value, err)] returned by a library call: the handlers look
    at the value only when [err == nil]. *)
Inductive ret (A : Type) : Type :=
  | Val (a : A)
  | Fail (e : error).
Arguments Val {A} a.
Arguments Fail {A} e.

(** A metric value ([interface{}]): a Go string, or any other value given
    by its [%v] rendering. *)
Inductive metric : Type :=
  | MString (s : string)
  | MOther (rendered : string).

(** What [GetContext()] hands back when it is not nil: a context whose
    [Err()] answers [Err]. *)
Record StreamContext : Type := { Err : option error }.

Definition nl : string := String (ascii_of_nat 10) EmptyString.
Definition dq : string := String (ascii_of_nat 34) EmptyString.

(** [time.Duration] is an int64 count of nanoseconds. *)
Definition Second : Z := 1000000000.
Definition minDuration : Z := - 2 ^ 63.
Definition maxDuration : Z := 2 ^ 63 - 1.

(** [t.Sub(u)]: the difference, saturated to the range of a Duration.
    Instants are nanoseconds on one time line. *)
Definition time_Sub (t u : Z) : Z :=
  let d := (t - u)%Z in
  if (d <? minDuration)%Z then minDuration
  else if (maxDuration <? d)%Z then maxDuration
  else d.

(** ** The imported packages *)

(** [xstream.TopologyNew], seen through the methods the server calls. *)
Class TopologyOps (Topo : Type) : Type := {
  Cancel : Topo → Topo;
  Open : Topo → Topo;
  GetContext : Topo → option StreamContext;
  SetError : option error → Topo → Topo;
  GetMetrics : Topo → list string * list metric
}.

(** [processors.RuleProcessor] and [processors.StreamProcessor] over the
    state [Store] they persist; [Rule] is [api.Rule], of which the server
    reads the [Id]. *)
Class RuleProcessor (Store Rule Topo : Type) : Type := {
  rule_Id : Rule → string;
  ExecQuery : string → string → Store → ret Topo * Store;
  ExecCreate : string → string → Store → ret Rule * Store;
  ExecInitRule : Rule → Store → ret Topo * Store;
  GetRuleByName : string → Store → ret Rule * Store;
  ExecDesc : string → Store → ret string * Store;
  ExecShow : Store → ret string * Store;
  ExecDrop : string → Store → ret string * Store;
  ExecStmt : string → Store → ret (list string) * Store
}.

(** [fmt]'s [%q], and [json.Indent] with the empty prefix and an indent of
    two spaces ([None] when it reports an error). *)
Class GoLib : Type := {
  fmt_q : string → string;
  json_Indent : string → option string
}.

(** ** The server *)

Definition QUERY_RULE_ID : string := "internal-xstream_query_rule".

(** [type RuleState struct]; [Topology] is a pointer. *)
Record RuleState : Type := mkRuleState {
  Name : string;
  Topology : nat;
  Triggered : bool
}.

Definition with_Triggered (b : bool) (rs : RuleState) : RuleState :=
  {| Name := Name rs; Topology := Topology rs; Triggered := b |}.

(** [sinks.QR], the fields the server touches ([Mux] guards [Results]). *)
Record QueryResult : Type := mkQueryResult {
  Results : list string;
  LastFetch : Z
}.

(** The goroutine of [doStartRule], which captured the pointer [rs]:
    not yet scheduled, or blocked on the channel [tp.Open()] gave it. *)
Inductive monitor : Type :=
  | Spawned (rs : nat)
  | Waiting (rs : nat) (tp : nat)
  | Exited.

Section Server.

Context {Store Rule Topo : Type}.
Context `{!TopologyOps Topo} `{!RuleProcessor Store Rule Topo} `{!GoLib}.

Record ServerState : Type := mkServerState {
  registry : gmap string nat;      (* RuleRegistry: map[string]*RuleState *)
  rule_heap : list RuleState;      (* the RuleState values allocated *)
  topo_heap : list Topo;           (* the topologies allocated *)
  store : Store;                   (* behind ruleProcessor, streamProcessor *)
  QR : QueryResult;                (* sinks.QR *)
  goroutines : list monitor;
  logs : list string               (* lines given to common.Log *)
}.

Definition set_registry (f : gmap string nat → gmap string nat) (st : ServerState) :=
  mkServerState (f (registry st)) (rule_heap st) (topo_heap st) (store st)
                (QR st) (goroutines st) (logs st).
Definition set_rule_heap (f : list RuleState → list RuleState) (st : ServerState) :=
  mkServerState (registry st) (f (rule_heap st)) (topo_heap st) (store st)
                (QR st) (goroutines st) (logs st).
Definition set_topo_heap (f : list Topo → list Topo) (st : ServerState) :=
  mkServerState (registry st) (rule_heap st) (f (topo_heap st)) (store st)
                (QR st) (goroutines st) (logs st).
Definition set_store (s : Store) (st : ServerState) :=
  mkServerState (registry st) (rule_heap st) (topo_heap st) s
                (QR st) (goroutines st) (logs st).
Definition set_QR (f : QueryResult → QueryResult) (st : ServerState) :=
  mkServerState (registry st) (rule_heap st) (topo_heap st) (store st)
                (f (QR st)) (goroutines st) (logs st).
Definition set_goroutines (f : list monitor → list monitor) (st : ServerState) :=
  mkServerState (registry st) (rule_heap st) (topo_heap st) (store st)
                (QR st) (f (goroutines st)) (logs st).
Definition set_logs (f : list string → list string) (st : ServerState) :=
  mkServerState (registry st) (rule_heap st) (topo_heap st) (store st)
                (QR st) (goroutines st) (f (logs st)).

(** *** The monad of handlers: state passing, [None] is a panic *)

Definition M (A : Type) : Type := ServerState → option (A * ServerState).

#[export] Instance M_ret : MRet M := λ A a st, Some (a, st).
#[export] Instance M_bind : MBind M := λ A B f m st,
  match m st with
  | Some (a, st') => f a st'
  | None => None
  end.

Definition modify (f : ServerState → ServerState) : M unit :=
  λ st, Some (tt, f st).
Definition read {A} (f : ServerState → A) : M A :=
  λ st, Some (f st, st).
Definition panic {A} : M A := λ _, None.

(** [registry[name]], [registry[name] = p], [delete(registry, name)] *)
Definition registry_get (name : string) : M (option nat) :=
  read (λ st, registry st !! name).
Definition registry_put (name : string) (p : nat) : M unit :=
  modify (set_registry <[name := p]>).
Definition registry_delete (name : string) : M unit :=
  modify (set_registry (delete name)).

(** [&RuleState{...}]: a new cell at the end of the heap. *)
Definition new_RuleState (rs : RuleState) : M nat :=
  p ← read (λ st, length (rule_heap st));
  modify (set_rule_heap (λ h, h ++ [rs]));;
  mret p.

(** [*p] *)
Definition load_RuleState (p : nat) : M RuleState :=
  o ← read (λ st, rule_heap st !! p);
  match o with
  | Some rs => mret rs
  | None => panic
  end.

(** [p.Triggered = b] *)
Definition store_Triggered (p : nat) (b : bool) : M unit :=
  rs ← load_RuleState p;
  modify (set_rule_heap <[p := with_Triggered b rs]>).

(** A topology the processor returned is a new cell of [topo_heap]. *)
Definition new_Topology (t : Topo) : M nat :=
  tp ← read (λ st, length (topo_heap st));
  modify (set_topo_heap (λ h, h ++ [t]));;
  mret tp.

(** A method of [*tp] that reads, and one that changes the topology. *)
Definition topo_read {A} (f : Topo → A) (tp : nat) : M A :=
  o ← read (λ st, topo_heap st !! tp);
  match o with
  | Some t => mret (f t)
  | None => panic
  end.
Definition topo_call (f : Topo → Topo) (tp : nat) : M unit :=
  t ← topo_read id tp;
  modify (set_topo_heap <[tp := f t]>).

(** A call into the processors. *)
Definition processor {A} (f : Store → ret A * Store) : M (ret A) :=
  s ← read store;
  let '(r, s') := f s in
  modify (set_store s');;
  mret r.

(** A processor call that returns a [*TopologyNew]. *)
Definition processor_topo (f : Store → ret Topo * Store) : M (ret nat) :=
  r ← processor f;
  match r with
  | Val t => tp ← new_Topology t; mret (Val tp)
  | Fail e => mret (Fail e)
  end.

Definition log_Print (msg : string) : M unit :=
  modify (set_logs (λ l, l ++ [msg])).

(** *** The ad-hoc query *)

Definition stopQuery : M unit :=
  o ← registry_get QUERY_RULE_ID;
  match o with
  | Some rs =>
      log_Print "stop the query.";;
      r ← load_RuleState rs;
      topo_call Cancel (Topology r);;
      registry_delete QUERY_RULE_ID
  | None => mret tt
  end.

(** Every handler takes the string [*reply] holds at the call and returns
    the string it holds at the return, with the error returned. *)
Definition CreateQuery (sql : string) (reply : string) : M (string * option error) :=
  o ← registry_get QUERY_RULE_ID;
  (if o is Some _ then stopQuery else mret tt);;
  r ← processor_topo (ExecQuery QUERY_RULE_ID sql);
  match r with
  | Fail err => mret (reply, Some err)
  | Val tp =>
      rs ← new_RuleState {| Name := QUERY_RULE_ID; Topology := tp; Triggered := true |};
      registry_put QUERY_RULE_ID rs;;
      let msg := "Query was submit successfully." in
      log_Print msg;;
      mret (msg, None)
  end.

(** [strings.Join] with the empty separator. *)
Definition strings_Join (l : list string) : string :=
  foldr String.append EmptyString l.

(** [make([]string, 10)]: ten elements, each the zero string. *)
Definition make_strings (n : nat) : list string := replicate n EmptyString.

(** [now] is what [time.Now()] returns during the call. *)
Definition GetQueryResult (qid : string) (reply : string) (now : Z)
  : M (string * option error) :=
  o ← registry_get QUERY_RULE_ID;
  dead ← match o with
         | Some rs =>
             r ← load_RuleState rs;
             c ← topo_read GetContext (Topology r);
             mret (match c with
                   | Some c => Err c
                   | None => None
                   end)
         | None => mret None
         end;
  match dead with
  | Some e => mret (reply, Some e)
  | None =>
      modify (set_QR (λ q, mkQueryResult (Results q) now));;
      results ← read (λ st, Results (QR st));
      if decide (0 < length results) then
        modify (set_QR (λ q, mkQueryResult (make_strings 10) (LastFetch q)));;
        mret (strings_Join results, None)
      else mret (EmptyString, None)
  end.

(** *** Rules *)

Definition Stream (stream : string) (reply : string) : M (string * option error) :=
  r ← processor (ExecStmt stream);
  match r with
  | Fail err => mret (reply, Some (errorString ("Stream command error: " +:+ Error err)))
  | Val content => mret (foldl (λ acc c, acc +:+ (c +:+ nl)) reply content, None)
  end.

Definition createRuleState (rule : Rule) : M (ret nat) :=
  r ← processor_topo (ExecInitRule rule);
  match r with
  | Fail err => mret (Fail err)
  | Val tp =>
      rs ← new_RuleState {| Name := rule_Id rule; Topology := tp; Triggered := true |};
      registry_put (rule_Id rule) rs;;
      mret (Val rs)
  end.

(** The [go func] is recorded as a goroutine to be scheduled. *)
Definition doStartRule (rs : nat) : M (option error) :=
  store_Triggered rs true;;
  modify (set_goroutines (λ g, g ++ [Spawned rs]));;
  mret None.

(** The goroutine of [doStartRule] up to the receive: [tp := rs.Topology]
    and the call [tp.Open()]. *)
Definition monitor_open (i : nat) : M unit :=
  g ← read (λ st, goroutines st !! i);
  match g with
  | Some (Spawned rs) =>
      r ← load_RuleState rs;
      let tp := Topology r in
      topo_call Open tp;;
      modify (set_goroutines <[i := Waiting rs tp]>)
  | _ => mret tt
  end.

(** The goroutine from the receive of [err] on: the pipeline has ended. *)
Definition monitor_done (i : nat) (err : option error) : M unit :=
  g ← read (λ st, goroutines st !! i);
  match g with
  | Some (Waiting rs tp) =>
      c ← topo_read GetContext tp;
      (if c is Some _ then topo_call (SetError err) tp else panic);;
      r ← load_RuleState rs;
      log_Print ("closing rule " +:+ Name r +:+ " for error: " +:+ fmt_v_error err);;
      topo_call Cancel tp;;
      modify (set_goroutines <[i := Exited]>)
  | _ => mret tt
  end.

Definition CreateRule (name json : string) (reply : string) : M (string * option error) :=
  r ← processor (ExecCreate name json);
  match r with
  | Fail err =>
      mret (reply, Some (errorString ("Create rule error : " +:+ Error err +:+ ".")))
  | Val r =>
      let reply := "Rule " +:+ name +:+
        " was created, please use 'cli getstatus rule $rule_name' command to get rule status." in
      rs ← createRuleState r;
      match rs with
      | Fail err => mret (reply, Some err)
      | Val rs =>
          err ← doStartRule rs;
          match err with
          | Some err => mret (reply, Some err)
          | None => mret (reply, None)
          end
      end
  end.

(** The loop over [keys] of [GetStatusRule]; [values[i]] out of range is
    a panic. *)
Fixpoint metrics_loop (i : nat) (keys : list string) (values : list metric)
    (metrics : string) : option string :=
  match keys with
  | [] => Some metrics
  | key :: keys' =>
      match values !! i with
      | None => None
      | Some (MString value) =>
          metrics_loop (S i) keys' values
            (metrics +:+ (dq +:+ key +:+ dq +:+ ":" +:+ fmt_q value +:+ ","))
      | Some (MOther value) =>
          metrics_loop (S i) keys' values
            (metrics +:+ (dq +:+ key +:+ dq +:+ ":" +:+ value +:+ ","))
      end
  end.

(** [s[:len(s)-1]], for the non-empty [s] it is applied to. *)
Fixpoint but_last (s : string) : string :=
  match s with
  | EmptyString => EmptyString
  | String c EmptyString => EmptyString
  | String c s' => String c (but_last s')
  end.

Definition GetStatusRule (name : string) (reply : string) : M (string * option error) :=
  o ← registry_get name;
  match o with
  | Some rs =>
      r ← load_RuleState rs;
      if negb (Triggered r) then mret ("Stopped: canceled manually.", None)
      else
        c ← topo_read GetContext (Topology r);
        match c with
        | Some c =>
            match Err c with
            | None =>
                '(keys, values) ← topo_read GetMetrics (Topology r);
                match metrics_loop 0 keys values "{" with
                | None => panic
                | Some metrics =>
                    let metrics := but_last metrics +:+ "}" in
                    match json_Indent metrics with
                    | None => mret ("Running with metrics:" +:+ nl +:+ metrics, None)
                    | Some dst => mret ("Running with metrics:" +:+ nl +:+ dst, None)
                    end
                end
            | Some context_Canceled => mret ("Stopped: canceled by error.", None)
            | Some context_DeadlineExceeded => mret ("Stopped: deadline exceed.", None)
            | Some err => mret ("Stopped: " +:+ Error err +:+ ".", None)
            end
        | None => mret ("Stopped: no context found.", None)
        end
  | None => mret (reply, Some (errorString ("Rule " +:+ name +:+ " is not found")))
  end.

Definition StartRule (name : string) (reply : string) : M (string * option error) :=
  o ← registry_get name;
  r ← match o with
      | Some rs => mret (Val rs)
      | None =>
          r ← processor (GetRuleByName name);
          match r with
          | Fail err => mret (Fail err)
          | Val r => createRuleState r
          end
      end;
  match r with
  | Fail err => mret (reply, Some err)
  | Val rs =>
      err ← doStartRule rs;
      match err with
      | Some err => mret (reply, Some err)
      | None => mret ("Rule " +:+ name +:+ " was started", None)
      end
  end.

Definition StopRule (name : string) (reply : string) : M (string * option error) :=
  o ← registry_get name;
  match o with
  | Some rs =>
      r ← load_RuleState rs;
      topo_call Cancel (Topology r);;
      store_Triggered rs false;;
      mret ("Rule " +:+ name +:+ " was stopped.", None)
  | None => mret ("Rule " +:+ name +:+ " was not found.", None)
  end.

Definition RestartRule (name : string) (reply : string) : M (string * option error) :=
  '(reply, err) ← StopRule name reply;
  match err with
  | Some err => mret (reply, Some err)
  | None =>
      '(reply, err) ← StartRule name reply;
      match err with
      | Some err => mret (reply, Some err)
      | None => mret ("Rule " +:+ name +:+ " was restarted.", None)
      end
  end.

Definition DescRule (name : string) (reply : string) : M (string * option error) :=
  r ← processor (ExecDesc name);
  match r with
  | Fail err => mret (reply, Some (errorString ("Desc rule error : " +:+ Error err +:+ ".")))
  | Val r => mret (r, None)
  end.

Definition ShowRules (reply : string) : M (string * option error) :=
  r ← processor ExecShow;
  match r with
  | Fail err => mret (reply, Some (errorString ("Show rule error : " +:+ Error err +:+ ".")))
  | Val r => mret (r, None)
  end.

Definition DropRule (name : string) (reply : string) : M (string * option error) :=
  r ← processor (ExecDrop name);
  match r with
  | Fail err => mret (reply, Some (errorString ("Drop rule error : " +:+ Error err +:+ ".")))
  | Val r =>
      '(reply, err) ← StopRule name reply;
      match err with
      | Some err => mret (reply, Some err)
      | None => mret (r, None)
      end
  end.

(** *** The watchdog *)

Definition tickerInterval : Z := Second * 5.

(** One turn of the loop of [init], after the receive from [ticker.C];
    [n] is what [time.Now()] returns. *)
Definition watchdog_tick (n : Z) : M unit :=
  o ← registry_get QUERY_RULE_ID;
  match o with
  | None => mret tt
  | Some _ =>
      let w := (10 * Second)%Z in
      last ← read (λ st, LastFetch (QR st));
      let v := time_Sub n last in
      if decide (w ≤ v)%Z then
        log_Print "The client seems no longer fetch the query result, stop the query now.";;
        stopQuery
      else mret tt
  end.

(** *** Runs of the server *)

(** What can happen to the state: a request served, a goroutine or the
    ticker scheduled, and the steps of the code outside the file (the
    engine changing a topology it runs, the sinks package writing
    [sinks.QR]). *)
Inductive event : Type :=
  | ECreateQuery (sql : string)
  | EGetQueryResult (qid : string) (now : Z)
  | EStream (stream : string)
  | ECreateRule (name json : string)
  | EGetStatusRule (name : string)
  | EStartRule (name : string)
  | EStopRule (name : string)
  | ERestartRule (name : string)
  | EDescRule (name : string)
  | EShowRules
  | EDropRule (name : string)
  | ETick (now : Z)
  | EMonitorOpen (i : nat)
  | EMonitorDone (i : nat) (err : option error)
  | EEngine (tp : nat) (t : Topo)
  | ESink (q : QueryResult).

(** A request arrives with [*reply] the zero string. *)
Definition serve (h : string → M (string * option error)) : M unit :=
  h EmptyString;; mret tt.

Definition step (e : event) : M unit :=
  match e with
  | ECreateQuery sql => serve (CreateQuery sql)
  | EGetQueryResult qid now => serve (λ reply, GetQueryResult qid reply now)
  | EStream stream => serve (Stream stream)
  | ECreateRule name json => serve (CreateRule name json)
  | EGetStatusRule name => serve (GetStatusRule name)
  | EStartRule name => serve (StartRule name)
  | EStopRule name => serve (StopRule name)
  | ERestartRule name => serve (RestartRule name)
  | EDescRule name => serve (DescRule name)
  | EShowRules => serve ShowRules
  | EDropRule name => serve (DropRule name)
  | ETick now => watchdog_tick now
  | EMonitorOpen i => monitor_open i
  | EMonitorDone i err => monitor_done i err
  | EEngine tp t => modify (set_topo_heap <[tp := t]>)
  | ESink q => modify (set_QR (λ _, q))
  end.

Fixpoint run (tr : list event) : M unit :=
  match tr with
  | [] => mret tt
  | e :: tr' => step e;; run tr'
  end.

(** The state [StartUp] leaves when it has made the registry; the store
    and [sinks.QR] are what the other packages initialised. *)
Definition startup (s : Store) (q : QueryResult) : ServerState :=
  mkServerState ∅ [] [] s q [] [].

Definition reachable (st : ServerState) : Prop :=
  ∃ s q tr, run tr (startup s q) = Some (tt, st).

(** *** Notions the properties are stated with *)

(** The registry and the two heaps fit together: an entry points to an
    allocated [RuleState] that carries the entry's key as its [Name], and
    the [Topology] of an allocated [RuleState] is allocated. *)
Definition wf (st : ServerState) : Prop :=
  (∀ n p, registry st !! n = Some p →
          ∃ rs, rule_heap st !! p = Some rs ∧ Name rs = n) ∧
  (∀ p rs, rule_heap st !! p = Some rs → Topology rs < length (topo_heap st)).

(** The rule [name], if it is registered, is marked as stopped by hand. *)
Definition stopped (name : string) (st : ServerState) : Prop :=
  ∀ p, registry st !! name = Some p →
       ∃ rs, rule_heap st !! p = Some rs ∧ Triggered rs = false.

(** The topology the registry holds for [name]: [registry[name].Topology]. *)
Definition handle_of (name : string) (st : ServerState) : option nat :=
  p ← registry st !! name;
  rs ← rule_heap st !! p;
  Some (Topology rs).

(** A reply of [GetStatusRule] that carries metrics. *)
Definition metrics_block (reply : string) : bool :=
  String.prefix ("Running with metrics:" +:+ nl) reply.

(** The request [e], served in [st], is a start of the rule [name]:
    [StartRule] or [RestartRule] of [name]; a [StartRule], [RestartRule]
    or [CreateRule] that registers a descriptor whose [Id] is [name];
    [CreateQuery] when [name] is the reserved one. *)
Definition starts (name : string) (e : event) (st : ServerState) : bool :=
  match e with
  | ECreateQuery _ => bool_decide (name = QUERY_RULE_ID)
  | ECreateRule n json =>
      match (ExecCreate n json (store st)).1 with
      | Val r => bool_decide (rule_Id r = name)
      | Fail _ => false
      end
  | EStartRule n | ERestartRule n =>
      bool_decide (n = name) ||
      match registry st !! n with
      | Some _ => false
      | None =>
          match (GetRuleByName n (store st)).1 with
          | Val r => bool_decide (rule_Id r = name)
          | Fail _ => false
          end
      end
  | _ => false
  end.

(** No event of the run [tr] from [st] is a start of [name]. *)
Fixpoint no_start (name : string) (tr : list event) (st : ServerState) : bool :=
  match tr with
  | [] => true
  | e :: tr' =>
      negb (starts name e st) &&
      match step e st with
      | Some (_, st') => no_start name tr' st'
      | None => true
      end
  end.

End Server.

(** ** More of the server: [StartUp], and notions for further properties *)

(** [ruleProcessor.GetAllRules], which only [StartUp] calls. *)
Class RuleLister (Store : Type) : Type := {
  GetAllRules : Store → ret (list string) * Store
}.

Section ServerMore.

Context {Store Rule Topo : Type}.
Context `{!TopologyOps Topo} `{!RuleProcessor Store Rule Topo} `{!GoLib}.
Context `{!RuleLister Store}.
Implicit Types st : @ServerState Store Topo.

(** The loop of [StartUp] over the rule names; [reply] is the variable
    declared before the loop. *)
Fixpoint start_rules (rules : list string) (reply : string) : M unit :=
  match rules with
  | [] => mret tt
  | rule :: rules' =>
      '(reply, err) ← StartRule rule reply;
      match err with
      | Some err => log_Print (Error err)
      | None => log_Print reply
      end;;
      start_rules rules' reply
  end.

(** [StartUp] from [registry = make(RuleRegistry)] to the end of the
    loop that starts the rules. *)
Definition StartUp_rules : M unit :=
  modify (set_registry (λ _, ∅));;
  r ← processor GetAllRules;
  match r with
  | Fail err => log_Print ("Start rules error: " +:+ Error err)
  | Val rules =>
      log_Print "Starting rules";;
      start_rules rules EmptyString
  end.

(** The state without its log. *)
Definition no_logs st : ServerState := set_logs (λ _, []) st.

(** The pointers the goroutines of [doStartRule] hold are allocated. *)
Definition monitor_ok st (g : monitor) : Prop :=
  match g with
  | Spawned rs => rs < length (rule_heap st)
  | Waiting rs tp => rs < length (rule_heap st) ∧ tp < length (topo_heap st)
  | Exited => True
  end.

Definition monitors_ok st : Prop :=
  ∀ i g, goroutines st !! i = Some g → monitor_ok st g.

(** Where a step of the server panics. *)
Definition panics_at (e : @event Topo) st : Prop :=
  match e with
  | EGetStatusRule name =>
      ∃ p rs t c keys values,
        registry st !! name = Some p ∧ rule_heap st !! p = Some rs ∧
        Triggered rs = true ∧ topo_heap st !! Topology rs = Some t ∧
        GetContext t = Some c ∧ Err c = None ∧
        GetMetrics t = (keys, values) ∧ length values < length keys
  | EMonitorDone i err =>
      ∃ rs tp t,
        goroutines st !! i = Some (Waiting rs tp) ∧
        topo_heap st !! tp = Some t ∧ GetContext t = None
  | _ => False
  end.

(** [h'] has every cell of [h], with the same [Name] and [Topology]. *)
Definition heap_ext (h h' : list RuleState) : Prop :=
  ∀ p rs, h !! p = Some rs →
          ∃ rs', h' !! p = Some rs' ∧ Name rs' = Name rs ∧
                 Topology rs' = Topology rs.


(** One member of the JSON object of metrics, and the object. *)
Definition metric_entry (key : string) (value : metric) : string :=
  dq +:+ key +:+ dq +:+ ":" +:+
  match value with
  | MString s => fmt_q s
  | MOther v => v
  end.

Definition json_object (members : list string) : string :=
  "{" +:+ String.concat "," members +:+ "}".

(** What [GetStatusRule] hands to [json.Indent]. *)
Definition metrics_text (keys : list string) (values : list metric) : string :=
  match keys with
  | [] => "}"
  | _ => json_object (zip_with metric_entry keys values)
  end.

(** [GetQueryResult] has no error of the query to report. *)
Definition query_alive st : Prop :=
  ∀ p, registry st !! QUERY_RULE_ID = Some p →
       ∃ rs t, rule_heap st !! p = Some rs ∧
               topo_heap st !! Topology rs = Some t ∧
               (GetContext t ≫= Err) = None.

(** The sink of the query appends fragments: [append(QR.Results, l...)]. *)
Definition sink_append (l : list string) st : ServerState :=
  set_QR (λ q, mkQueryResult (Results q ++ l) (LastFetch q)) st.

End ServerMore.

(** ** The calls of the ad-hoc query, in their order *)

(** What [stopQuery] and [CreateQuery] do to the registry and ask of
    the imported packages: a line given to the log, [Cancel] of a topology,
    [delete(registry, name)], [ExecQuery(id, sql)] and
    [registry[name] = rs]. *)
Inductive call : Type :=
  | call_Log (msg : string)
  | call_Cancel (tp : nat)
  | call_delete (name : string)
  | call_ExecQuery (id sql : string)
  | call_put (name : string) (rs : nat).

Section ServerCalls.

Context {Store Rule Topo : Type}.
Context `{!TopologyOps Topo} `{!RuleProcessor Store Rule Topo} `{!GoLib}.
Implicit Types st : @ServerState Store Topo.

(** A handler that also gives the calls it made, in the order in which
    it made them. *)
Definition M_traced (A : Type) : Type :=
  @ServerState Store Topo → option (A * @ServerState Store Topo * list call).

#[export] Instance M_traced_ret : MRet M_traced := λ A a st, Some (a, st, []).
#[export] Instance M_traced_bind : MBind M_traced := λ A B f m st,
  match m st with
  | Some (a, st', l) =>
      match f a st' with
      | Some (b, st'', l') => Some (b, st'', l ++ l')
      | None => None
      end
  | None => None
  end.

(** [traced c m]: [m] is run and recorded as the call [c].
    [silent m]: [m] is run and not recorded (a read of the registry or
    of a cell, an allocation). *)
Definition traced {A} (c : call) (m : M A) : M_traced A :=
  λ st, match m st with Some (a, st') => Some (a, st', [c]) | None => None end.
Definition silent {A} (m : M A) : M_traced A :=
  λ st, match m st with Some (a, st') => Some (a, st', []) | None => None end.

(** The handler without its calls. *)
Definition erase {A} (m : M_traced A) : M A :=
  λ st, match m st with Some (a, st', _) => Some (a, st') | None => None end.

(** [stopQuery] and [CreateQuery], statement by statement as above, with
    their calls. *)
Definition stopQuery_traced : M_traced unit :=
  o ← silent (registry_get QUERY_RULE_ID);
  match o with
  | Some rs =>
      traced (call_Log "stop the query.") (log_Print "stop the query.");;
      r ← silent (load_RuleState rs);
      traced (call_Cancel (Topology r)) (topo_call Cancel (Topology r));;
      traced (call_delete QUERY_RULE_ID) (registry_delete QUERY_RULE_ID)
  | None => mret tt
  end.

Definition CreateQuery_traced (sql : string) (reply : string)
  : M_traced (string * option error) :=
  o ← silent (registry_get QUERY_RULE_ID);
  (if o is Some _ then stopQuery_traced else mret tt);;
  r ← traced (call_ExecQuery QUERY_RULE_ID sql)
             (processor_topo (ExecQuery QUERY_RULE_ID sql));
  match r with
  | Fail err => mret (reply, Some err)
  | Val tp =>
      rs ← silent (new_RuleState {| Name := QUERY_RULE_ID; Topology := tp;
                                    Triggered := true |});
      traced (call_put QUERY_RULE_ID rs) (registry_put QUERY_RULE_ID rs);;
      let msg := "Query was submit successfully." in
      traced (call_Log msg) (log_Print msg);;
      mret (msg, None)
  end.

End ServerCalls.

(** ** A small instance, to run the server on *)

Module Demo.

(** A topology that records what was called on it: the error of its
    context ([None]: there is no context yet) and the calls of [Cancel]. *)
Record topo : Type := mkTopo {
  t_ctx : option (option error);
  t_cancels : nat;
  t_metrics : list string * list metric
}.

#[export] Instance topo_ops : TopologyOps topo := {
  Cancel t :=
    mkTopo (match t_ctx t with
            | Some None => Some (Some context_Canceled)
            | c => c
            end) (S (t_cancels t)) (t_metrics t);
  Open t := mkTopo (Some None) (t_cancels t) (t_metrics t);
  GetContext t := (λ e, {| Err := e |}) <$> t_ctx t;
  SetError e t :=
    mkTopo (match e with
            | Some _ => Some e
            | None => t_ctx t
            end) (t_cancels t) (t_metrics t);
  GetMetrics := t_metrics
}.

Definition new_topo : topo :=
  mkTopo None 0 (["source_in"; "sink_status"], [MOther "0"; MString "ok"]).

(** The store is the list of the names of the rules persisted; a rule
    descriptor is its id. *)
#[export] Instance processor : RuleProcessor (list string) string topo := {
  rule_Id r := r;
  ExecQuery id sql s :=
    if decide (sql = EmptyString) then (Fail (errorString "empty query"), s)
    else (Val new_topo, s);
  ExecCreate name json s :=
    if decide (name ∈ s) then (Fail (errorString "rule exists"), s)
    else (Val name, name :: s);
  ExecInitRule r s := (Val new_topo, s);
  GetRuleByName name s :=
    if decide (name ∈ s) then (Val name, s)
    else (Fail (errorString ("Rule " +:+ name +:+ " is not found.")), s);
  ExecDesc name s :=
    if decide (name ∈ s) then (Val name, s)
    else (Fail (errorString "not found"), s);
  ExecShow s := (Val (strings_Join s), s);
  ExecDrop name s :=
    if decide (name ∈ s) then (Val ("Rule " +:+ name +:+ " is dropped."), filter (λ n, n ≠ name) s)
    else (Fail (errorString ("Rule " +:+ name +:+ " is not found.")), s);
  ExecStmt stmt s := (Val [stmt], s)
}.

#[export] Instance golib : GoLib := {
  fmt_q s := dq +:+ s +:+ dq;
  json_Indent s := Some s
}.

Definition state : Type := @ServerState (list string) topo.
Definition start : state := startup [] (mkQueryResult [] 0).

(** The state a run leaves, from [start]. *)
Definition after (tr : list event) : state :=
  match run tr start with
  | Some (_, st) => st
  | None => start
  end.

(** A topology whose context carries the error [e]. *)
Definition ended (e : error) : topo :=
  mkTopo (Some (Some e)) 0 ([], []).

(** Runs used below. *)

(** The query is registered, then its pipeline ends with an error. *)
Definition query_died : list (@event topo) :=
  [ECreateQuery "select * from demo"; EEngine 0 (ended (errorString "source closed"))].

(** The rule r1 runs, then its context reports the deadline. *)
Definition deadline_hit : list (@event topo) :=
  [ECreateRule "r1" "{}"; EMonitorOpen 0; EEngine 0 (ended context_DeadlineExceeded)].

(** A query is registered and never fetched; [LastFetch] is 0. *)
Definition query_idle : list (@event topo) := [ECreateQuery "select * from demo"].

(** The rule r1 is created and its pipeline is opened. *)
Definition rule_running : list (@event topo) :=
  [ECreateRule "r1" "{}"; EMonitorOpen 0].

(** After the stop of r1: its pipeline ends with an error, the watchdog
    ticks, another rule is created and started, r1 is dropped. *)
Definition after_stop : list (@event topo) :=
  [EMonitorDone 0 (Some (errorString "source closed")); ETick 10000000000;
   ECreateRule "r2" "{}"; EMonitorOpen 1; EGetStatusRule "r1"; EDropRule "r1"].

#[export] Instance lister : RuleLister (list string) := {
  GetAllRules s := (Val s, s)
}.

(** A running topology that reports two metric names and one value. *)
Definition short_metrics : topo :=
  mkTopo (Some None) 0 (["a"; "b"], [MOther "1"]).

Definition bad_metrics : list (@event topo) :=
  [ECreateRule "r1" "{}"; EMonitorOpen 0; EEngine 0 short_metrics].

(** r1 is stopped, restarted and dropped. *)
Definition stop_restart_drop : list (@event topo) :=
  [EStopRule "r1"; ERestartRule "r1"; EDropRule "r1"].

(** A buffer of two fragments and no query. *)
Definition buffered : state := startup [] (mkQueryResult ["a"; "b"] 0).

End Demo.

(** ** Proofs *)

(** Run a handler symbolically: unfold it down to the state it returns
    and split on everything it inspects. *)
Ltac unfold_M :=
  cbv [step watchdog_tick CreateQuery GetQueryResult Stream CreateRule
       GetStatusRule StartRule RestartRule DropRule StopRule DescRule
       ShowRules monitor_open monitor_done createRuleState doStartRule
       stopQuery
       mbind M_bind mret M_ret read modify panic registry_get registry_put
       registry_delete new_RuleState load_RuleState store_Triggered
       new_Topology topo_read topo_call processor processor_topo log_Print
       serve] in *.

Ltac run_M := unfold_M; simplify_eq/=; repeat (case_match; simplify_eq/=).

(** Run a handler along the path the hypotheses fix. *)
Ltac follow_M :=
  unfold_M;
  repeat (simpl; match goal with H : ?x = _ |- context [?x] => rewrite H end);
  simpl.

Ltac unfold_traced :=
  cbv [CreateQuery_traced stopQuery_traced erase traced silent
       mbind M_traced_bind mret M_traced_ret] in *;
  unfold_M.

Section Proofs.

Context {Store Rule Topo : Type}.
Context `{!TopologyOps Topo} `{!RuleProcessor Store Rule Topo} `{!GoLib}.
Implicit Types st : @ServerState Store Topo.

(** *** The invariant of the registry *)

Lemma wf_set_store s st : wf st → wf (set_store s st).
Proof. done. Qed.
Lemma wf_set_QR f st : wf st → wf (set_QR f st).
Proof. done. Qed.
Lemma wf_set_goroutines f st : wf st → wf (set_goroutines f st).
Proof. done. Qed.
Lemma wf_set_logs f st : wf st → wf (set_logs f st).
Proof. done. Qed.

Lemma wf_set_topo tp t st : wf st → wf (set_topo_heap <[tp := t]> st).
Proof.
  intros [Hr Ht]. split; [done|]. intros p rs Hp. simpl.
  rewrite length_insert. by eapply Ht.
Qed.

Lemma wf_new_topo t st : wf st → wf (set_topo_heap (λ h, h ++ [t]) st).
Proof.
  intros [Hr Ht]. split; [done|]. intros p rs Hp. simpl.
  rewrite length_app. specialize (Ht p rs Hp). lia.
Qed.

Lemma wf_delete n st : wf st → wf (set_registry (delete n) st).
Proof.
  intros [Hr Ht]. split; [|done]. intros n' p. simpl.
  rewrite lookup_delete_Some. intros [_ Hp]. by apply Hr.
Qed.

Lemma wf_set_Triggered p b rs st :
  wf st → rule_heap st !! p = Some rs →
  wf (set_rule_heap <[p := with_Triggered b rs]> st).
Proof.
  intros [Hr Ht] Hp. split; simpl.
  - intros n q Hq. destruct (Hr n q Hq) as (rs' & Hrs' & Hn).
    destruct (decide (q = p)) as [->|Hne].
    + exists (with_Triggered b rs). split; [|simpl; congruence].
      apply list_lookup_insert_eq. by eapply lookup_lt_Some.
    + exists rs'. by rewrite list_lookup_insert_ne.
  - intros q rs' Hq. destruct (decide (q = p)) as [->|Hne].
    + rewrite list_lookup_insert_eq in Hq by (by eapply lookup_lt_Some).
      simplify_eq/=. by eapply Ht.
    + rewrite list_lookup_insert_ne in Hq by done. by eapply Ht.
Qed.

Lemma wf_register n rs (k : nat) st :
  wf st → Name rs = n → Topology rs < length (topo_heap st) →
  length (rule_heap st) = k →
  wf (set_registry <[n := k]> (set_rule_heap (λ h, h ++ [rs]) st)).
Proof.
  intros [Hr Ht] Hn Htp <-. split; simpl.
  - intros n' p. rewrite lookup_insert_Some. intros [[<- <-]|[Hne Hp]].
    + exists rs. split; [|done]. by rewrite lookup_app_r, Nat.sub_diag.
    + destruct (Hr n' p Hp) as (rs' & Hrs' & Hn'). exists rs'. split; [|done].
      by apply lookup_app_l_Some.
  - intros p rs'. rewrite lookup_app_Some. intros [Hp|[_ Hp]]; [by eapply Ht|].
    destruct (p - length (rule_heap st)); simplify_eq/=. done.
Qed.

Ltac wf_frame :=
  repeat first
    [ apply wf_set_store | apply wf_set_QR | apply wf_set_goroutines
    | apply wf_set_logs | apply wf_set_topo | apply wf_new_topo
    | apply wf_delete ].

Ltac wf_solve :=
  wf_frame; try done;
  first
    [ eapply wf_set_Triggered; [wf_solve | simpl; eassumption]
    | eapply wf_register;
      [ wf_solve | done
      | simpl; rewrite ?length_app, ?length_insert; simpl; lia | done ] ].

Lemma step_wf e st st' : wf st → step e st = Some (tt, st') → wf st'.
Proof. intros Hwf Hs. destruct e; run_M; wf_solve. Qed.

Lemma run_nil st : run [] st = Some (tt, st).
Proof. reflexivity. Qed.

Lemma run_cons e tr st :
  run (e :: tr) st =
  match step e st with
  | Some (_, st') => run tr st'
  | None => None
  end.
Proof. reflexivity. Qed.

Lemma run_app tr1 tr2 st :
  run (tr1 ++ tr2) st =
  match run tr1 st with
  | Some (_, st') => run tr2 st'
  | None => None
  end.
Proof.
  revert st. induction tr1 as [|e tr1 IH]; intros st; [done|].
  rewrite <- app_comm_cons, !run_cons. destruct (step e st) as [[[] st1]|]; auto.
Qed.

Lemma run_wf tr st st' : wf st → run tr st = Some (tt, st') → wf st'.
Proof.
  revert st. induction tr as [|e tr IH]; intros st Hwf Hr.
  - rewrite run_nil in Hr. by simplify_eq.
  - rewrite run_cons in Hr.
    destruct (step e st) as [[[] st1]|] eqn:Hs; [|done].
    eapply IH; [|done]. by eapply step_wf.
Qed.

Lemma startup_wf (s : Store) q : wf (startup (Topo := Topo) s q).
Proof. split; intros ??; simpl; [by rewrite lookup_empty|by rewrite lookup_nil]. Qed.

Lemma reachable_wf st : reachable st → wf st.
Proof. intros (s & q & tr & Hr). eapply run_wf; [apply startup_wf|done]. Qed.

Lemma reachable_run tr st st' :
  reachable st → run tr st = Some (tt, st') → reachable st'.
Proof.
  intros (s & q & tr0 & Hr) Hr'. exists s, q, (tr0 ++ tr).
  by rewrite run_app, Hr.
Qed.

(** A registry entry determines its key. *)
Lemma wf_registry_inj st n1 n2 p :
  wf st → registry st !! n1 = Some p → registry st !! n2 = Some p → n1 = n2.
Proof.
  intros [Hr _] H1 H2.
  destruct (Hr _ _ H1) as (rs1 & ? & ?), (Hr _ _ H2) as (rs2 & ? & ?).
  congruence.
Qed.

(** In a reachable state no handler dereferences a dangling pointer of
    the registry: an entry leads to a [RuleState] and on to a topology. *)
Lemma reachable_entry_valid st n p :
  reachable st → registry st !! n = Some p →
  ∃ rs t, rule_heap st !! p = Some rs ∧ Name rs = n ∧
          topo_heap st !! Topology rs = Some t.
Proof.
  intros [Hr Ht]%reachable_wf Hp. destruct (Hr _ _ Hp) as (rs & Hrs & Hn).
  destruct (lookup_lt_is_Some_2 (topo_heap st) (Topology rs)) as [t Htp];
    [by eapply Ht|].
  by exists rs, t.
Qed.

(** *** StopRule, GetStatusRule, GetQueryResult *)

(** C8. [StopRule] on a name that has no entry in the registry returns
    no error and the reply "Rule <name> was not found."; it does not
    panic and leaves the whole state, the registry included, as it was. *)
Theorem StopRule_not_found name reply st :
  registry st !! name = None →
  StopRule name reply st
  = Some (("Rule " +:+ name +:+ " was not found.", None), st).
Proof. intros Hn. unfold_M. by rewrite Hn. Qed.

(** C9. While the entry of the ad-hoc query exists and the context of its
    topology reports an error, [GetQueryResult] returns that error: the
    reply is not written and neither [sinks.QR] nor anything else
    changes. *)
Theorem GetQueryResult_query_died qid reply now st p rs t c e :
  registry st !! QUERY_RULE_ID = Some p →
  rule_heap st !! p = Some rs →
  topo_heap st !! Topology rs = Some t →
  GetContext t = Some c →
  Err c = Some e →
  GetQueryResult qid reply now st = Some ((reply, Some e), st).
Proof.
  intros Hp Hrs Ht Hc He. by follow_M.
Qed.

Lemma metrics_block_running body :
  metrics_block ("Running with metrics:" +:+ nl +:+ body) = true.
Proof. by destruct body. Qed.

(** C6. For a registered rule whose [Triggered] is true and whose context
    carries [context.DeadlineExceeded], [GetStatusRule] replies the
    literal "Stopped: deadline exceed.", which is no metrics block,
    returns no error and changes nothing. *)
Theorem GetStatusRule_deadline name reply st p rs t c :
  registry st !! name = Some p →
  rule_heap st !! p = Some rs →
  Triggered rs = true →
  topo_heap st !! Topology rs = Some t →
  GetContext t = Some c →
  Err c = Some context_DeadlineExceeded →
  GetStatusRule name reply st = Some (("Stopped: deadline exceed.", None), st)
  ∧ metrics_block "Stopped: deadline exceed." = false.
Proof.
  intros Hp Hrs Htr Ht Hc He. split; [|done].
  by follow_M.
Qed.

(** *** The watchdog *)

Lemma time_Sub_ge (n u : Z) :
  (10 * Second ≤ time_Sub n u ↔ 10 * Second ≤ n - u)%Z.
Proof.
  unfold time_Sub, Second, minDuration, maxDuration.
  repeat case_match; lia.
Qed.

(** What [stopQuery] does to a registered query. *)
Lemma stopQuery_registered st p rs t :
  registry st !! QUERY_RULE_ID = Some p →
  rule_heap st !! p = Some rs →
  topo_heap st !! Topology rs = Some t →
  stopQuery st
  = Some (tt, set_registry (delete QUERY_RULE_ID)
                (set_topo_heap <[Topology rs := Cancel t]>
                   (set_logs (λ l, l ++ ["stop the query."]) st))).
Proof. intros Hp Hrs Ht. by follow_M. Qed.

Lemma stopQuery_absent st :
  registry st !! QUERY_RULE_ID = None → stopQuery st = Some (tt, st).
Proof. intros Hp. unfold_M. by rewrite Hp. Qed.

(** C7. The ticker of [init] fires every five seconds.  On a tick at
    time [now]: when the entry of the ad-hoc query exists and
    [now - LastFetch] is at least ten seconds, the tick calls [Cancel] on
    the entry's topology and deletes the entry from the registry; when
    there is no entry, or [LastFetch] is less than ten seconds old, the
    tick leaves the state as it is. *)
Theorem watchdog_tick_reclaims now st :
  tickerInterval = (5 * 1000000000)%Z ∧
  (∀ p rs t,
     registry st !! QUERY_RULE_ID = Some p →
     rule_heap st !! p = Some rs →
     topo_heap st !! Topology rs = Some t →
     (10 * Second ≤ now - LastFetch (QR st))%Z →
     ∃ st', watchdog_tick now st = Some (tt, st') ∧
            registry st' = delete QUERY_RULE_ID (registry st) ∧
            topo_heap st' = <[Topology rs := Cancel t]> (topo_heap st) ∧
            rule_heap st' = rule_heap st ∧ store st' = store st ∧
            QR st' = QR st ∧ goroutines st' = goroutines st) ∧
  (registry st !! QUERY_RULE_ID = None ∨
   (now - LastFetch (QR st) < 10 * Second)%Z →
   watchdog_tick now st = Some (tt, st)).
Proof.
  split; [done|]. split.
  - intros p rs t Hp Hrs Ht Hold. apply time_Sub_ge in Hold.
    eexists. split; [|].
    + unfold_M. rewrite Hp. simpl. rewrite decide_True by done. by follow_M.
    + done.
  - intros [Hp|Hnew].
    + unfold_M. by rewrite Hp.
    + unfold_M.
      destruct (registry st !! QUERY_RULE_ID); [|done].
      rewrite decide_False; [done|]. rewrite time_Sub_ge. lia.
Qed.

(** *** CreateQuery *)

(** C10. When [CreateQuery] is called while an entry of the ad-hoc query
    exists and [ExecQuery] fails, the call returns the error of
    [ExecQuery], and it has already called [Cancel] on the topology of
    the previous query and deleted its entry: the registry has no entry
    of the ad-hoc query afterwards. *)
Theorem CreateQuery_failure_drops_previous sql reply st p rs t e s' :
  registry st !! QUERY_RULE_ID = Some p →
  rule_heap st !! p = Some rs →
  topo_heap st !! Topology rs = Some t →
  ExecQuery QUERY_RULE_ID sql (store st) = (Fail e, s') →
  ∃ st', CreateQuery sql reply st = Some ((reply, Some e), st') ∧
         registry st' !! QUERY_RULE_ID = None ∧
         registry st' = delete QUERY_RULE_ID (registry st) ∧
         topo_heap st' = <[Topology rs := Cancel t]> (topo_heap st) ∧
         rule_heap st' = rule_heap st.
Proof.
  intros Hp Hrs Ht He. eexists. split.
  - by follow_M.
  - simpl. by rewrite lookup_delete_eq.
Qed.

(** *** GetQueryResult on a live or absent query *)

Lemma strings_Join_make n : strings_Join (make_strings n) = EmptyString.
Proof. induction n; [done|]. simpl. done. Qed.

(** With no error to report, [GetQueryResult] sets [LastFetch], returns
    the fragments joined, and replaces a non-empty [Results] by
    [make([]string, 10)]. *)
Lemma GetQueryResult_fetch qid reply now st :
  registry st !! QUERY_RULE_ID = None →
  GetQueryResult qid reply now st
  = Some ((strings_Join (Results (QR st)), None),
          set_QR (λ q, mkQueryResult
                         (if decide (0 < length (Results q))
                          then make_strings 10 else Results q) now) st).
Proof.
  intros Hq. unfold_M. rewrite Hq. simpl. unfold set_QR. simpl.
  destruct (decide (0 < length (Results (QR st)))) as [Hlen|Hlen]; [done|].
  destruct (Results (QR st)); [done|]. simpl in Hlen. lia.
Qed.

(** The same with a query registered whose context is nil or reports no
    error. *)
Lemma GetQueryResult_fetch_live qid reply now st p rs t :
  registry st !! QUERY_RULE_ID = Some p →
  rule_heap st !! p = Some rs →
  topo_heap st !! Topology rs = Some t →
  (GetContext t ≫= Err) = None →
  GetQueryResult qid reply now st
  = Some ((strings_Join (Results (QR st)), None),
          set_QR (λ q, mkQueryResult
                         (if decide (0 < length (Results q))
                          then make_strings 10 else Results q) now) st).
Proof.
  intros Hp Hrs Ht Hc. unfold_M. rewrite Hp. simpl. rewrite Hrs. simpl.
  rewrite Ht. simpl.
  assert (match GetContext t with Some c => Err c | None => None end = None)
    as -> by (by destruct (GetContext t)).
  unfold set_QR. simpl.
  destruct (decide (0 < length (Results (QR st)))) as [Hlen|Hlen]; [done|].
  destruct (Results (QR st)); [done|]. simpl in Hlen. lia.
Qed.

(** *** DropRule and RestartRule *)

(** [DropRule] never changes the registry map: it calls [StopRule],
    which keeps the entry. *)
Lemma DropRule_registry name reply st r st' :
  DropRule name reply st = Some (r, st') → registry st' = registry st.
Proof. intros Hd. by run_M. Qed.

(** C2, as the code has it. [RestartRule] on a registered rule returns
    "Rule <name> was restarted." and leaves the rule with [Triggered]
    true and with the topology it had before the call: the entry and its
    [RuleState] stay in place, [Cancel] is called on that topology, no
    topology is created, and a goroutine is spawned to open it again. *)
Theorem RestartRule_keeps_topology name reply st p rs t :
  registry st !! name = Some p →
  rule_heap st !! p = Some rs →
  topo_heap st !! Topology rs = Some t →
  ∃ st' rs',
    RestartRule name reply st
    = Some (("Rule " +:+ name +:+ " was restarted.", None), st') ∧
    registry st' !! name = Some p ∧
    rule_heap st' !! p = Some rs' ∧
    Triggered rs' = true ∧
    Topology rs' = Topology rs ∧
    topo_heap st' = <[Topology rs := Cancel t]> (topo_heap st) ∧
    goroutines st' = goroutines st ++ [Spawned p].
Proof.
  intros Hp Hrs Ht.
  assert (Hlt : p < length (rule_heap st)) by by eapply lookup_lt_Some.
  eexists _, (with_Triggered true rs). split.
  - follow_M. rewrite list_lookup_insert_eq by done. by follow_M.
  - simpl. rewrite list_insert_insert_eq.
    by rewrite list_lookup_insert_eq by done.
Qed.

(** *** A stopped rule stays stopped until it is started *)

Lemma stopped_set_store name s st : stopped name st → stopped name (set_store s st).
Proof. done. Qed.
Lemma stopped_set_QR name f st : stopped name st → stopped name (set_QR f st).
Proof. done. Qed.
Lemma stopped_set_goroutines name f st :
  stopped name st → stopped name (set_goroutines f st).
Proof. done. Qed.
Lemma stopped_set_logs name f st : stopped name st → stopped name (set_logs f st).
Proof. done. Qed.
Lemma stopped_set_topo name f st :
  stopped name st → stopped name (set_topo_heap f st).
Proof. done. Qed.

Lemma stopped_delete name n st :
  stopped name st → stopped name (set_registry (delete n) st).
Proof.
  intros Hs p. simpl. rewrite lookup_delete_Some. intros [_ Hp]. by apply Hs.
Qed.

Lemma stopped_set_false name p rs st :
  stopped name st → rule_heap st !! p = Some rs →
  stopped name (set_rule_heap <[p := with_Triggered false rs]> st).
Proof.
  intros Hs Hp q Hq. simpl in *. destruct (Hs q Hq) as (rs' & Hrs' & Hf).
  destruct (decide (q = p)) as [->|Hne].
  - exists (with_Triggered false rs). split; [|done].
    apply list_lookup_insert_eq. by eapply lookup_lt_Some.
  - exists rs'. by rewrite list_lookup_insert_ne.
Qed.

Lemma stopped_set_other name p x st :
  stopped name st → registry st !! name ≠ Some p →
  stopped name (set_rule_heap <[p := x]> st).
Proof.
  intros Hs Hne q Hq. simpl in *. destruct (Hs q Hq) as (rs' & Hrs' & Hf).
  exists rs'. split; [|done]. rewrite list_lookup_insert_ne; [done|congruence].
Qed.

Lemma stopped_register name n rs (k : nat) st :
  stopped name st → n ≠ name →
  stopped name (set_registry <[n := k]> (set_rule_heap (λ h, h ++ [rs]) st)).
Proof.
  intros Hs Hne q. simpl. rewrite lookup_insert_ne by done. intros Hq.
  destruct (Hs q Hq) as (rs' & Hrs' & Hf). exists rs'. split; [|done].
  by apply lookup_app_l_Some.
Qed.

Lemma registry_lt st n p : wf st → registry st !! n = Some p → p < length (rule_heap st).
Proof. intros [Hr _] Hp. destruct (Hr n p Hp) as (rs & ? & _). by eapply lookup_lt_Some. Qed.

Lemma registry_ne st n name p :
  wf st → n ≠ name → registry st !! n = Some p → registry st !! name ≠ Some p.
Proof. intros Hwf Hne Hp Hp'. by destruct Hne; eapply wf_registry_inj. Qed.

Lemma registry_fresh st name :
  wf st → registry st !! name ≠ Some (length (rule_heap st)).
Proof. intros Hwf Hp. apply registry_lt in Hp; [lia|done]. Qed.

Ltac stopped_solve :=
  repeat match goal with
         | H : ?x = (_, _), H' : context [?x] |- _ =>
             rewrite H in H'; simpl in H'
         | H : bool_decide _ = false |- _ => apply bool_decide_eq_false in H
         end;
  simplify_eq/=;
  repeat first
    [ apply stopped_set_store | apply stopped_set_QR
    | apply stopped_set_goroutines | apply stopped_set_logs
    | apply stopped_set_topo | apply stopped_delete
    | eapply stopped_set_false; [|simpl; eassumption]
    | apply stopped_register; [|done]
    | apply stopped_set_other;
      [|simpl; rewrite ?lookup_insert_ne by done;
        first [ by eapply registry_ne | by apply registry_fresh ] ] ];
  done.

Lemma step_stopped name e st st' :
  wf st → stopped name st → starts name e st = false →
  step e st = Some (tt, st') → stopped name st'.
Proof.
  intros Hwf Hst Hq Hs.
  destruct e; simpl in Hq; try apply orb_false_iff in Hq as [Hn Hq];
    run_M; stopped_solve.
Qed.

Lemma run_stopped name tr st st' :
  wf st → stopped name st → no_start name tr st = true →
  run tr st = Some (tt, st') → stopped name st'.
Proof.
  revert st. induction tr as [|e tr IH]; intros st Hwf Hst Hq Hr.
  - rewrite run_nil in Hr. by simplify_eq.
  - rewrite run_cons in Hr. simpl in Hq.
    apply andb_true_iff in Hq as [Hq Hqs]. apply negb_true_iff in Hq.
    destruct (step e st) as [[[] st1]|] eqn:Hs; [|done].
    eapply IH; [by eapply step_wf|by eapply step_stopped|done..].
Qed.

(** Only [stopQuery] deletes from the registry, and only the entry of the
    ad-hoc query. *)
Lemma step_registered name e st st' :
  name ≠ QUERY_RULE_ID → is_Some (registry st !! name) →
  step e st = Some (tt, st') → is_Some (registry st' !! name).
Proof.
  intros Hne Hreg Hs. destruct e; run_M; try done.
  all: rewrite ?lookup_insert_is_Some, ?lookup_delete_is_Some.
  all: repeat match goal with
       | |- ?n = ?m ∨ _ => destruct (decide (n = m)); [by left|right]
       | |- _ ∧ _ => split; [done|]
       end; try done.
Qed.

Lemma run_registered name tr st st' :
  name ≠ QUERY_RULE_ID → is_Some (registry st !! name) →
  run tr st = Some (tt, st') → is_Some (registry st' !! name).
Proof.
  intros Hne. revert st. induction tr as [|e tr IH]; intros st Hreg Hr.
  - rewrite run_nil in Hr. by simplify_eq.
  - rewrite run_cons in Hr.
    destruct (step e st) as [[[] st1]|] eqn:Hs; [|done].
    eapply IH; [by eapply step_registered|done].
Qed.

Lemma StopRule_stopped name reply st r st' :
  wf st → StopRule name reply st = Some (r, st') →
  wf st' ∧ stopped name st' ∧ registry st' = registry st.
Proof.
  intros Hwf Hs. run_M.
  - assert (n < length (rule_heap s0)) by by eapply lookup_lt_Some.
    split_and!; [wf_solve| |done]. intros q Hq. simpl in *. simplify_eq.
    exists (with_Triggered false r0). by rewrite list_lookup_insert_eq.
  - split_and!; [done| |done]. intros q Hq. congruence.
Qed.

(** In a reachable state [StopRule] on a registered rule returns. *)
Lemma StopRule_completes name reply st :
  reachable st → is_Some (registry st !! name) →
  ∃ st1, StopRule name reply st
         = Some (("Rule " +:+ name +:+ " was stopped.", None), st1).
Proof.
  intros Hreach [p Hp].
  destruct (reachable_entry_valid _ _ _ Hreach Hp) as (rs & t & Hrs & _ & Ht).
  eexists. by follow_M.
Qed.

Lemma GetStatusRule_stopped name reply st :
  stopped name st → is_Some (registry st !! name) →
  GetStatusRule name reply st = Some (("Stopped: canceled manually.", None), st).
Proof.
  intros Hst [p Hp]. destruct (Hst p Hp) as (rs & Hrs & Hf). by follow_M.
Qed.

(** C5, as the code has it. Once [StopRule] has returned for a registered
    rule, [GetStatusRule] replies "Stopped: canceled manually.", which is
    no metrics block, after every run of requests, goroutines, ticks and
    engine steps that holds no start of that rule, whatever happened to
    the pipeline and its context before or after the stop.  This needs
    the entry to be registered still, which it is for every name other
    than the reserved one: only the entry of the ad-hoc query is ever
    deleted. *)
Theorem StopRule_then_status name reply st r st1 tr st2 reply' :
  reachable st →
  is_Some (registry st !! name) →
  StopRule name reply st = Some (r, st1) →
  no_start name tr st1 = true →
  run tr st1 = Some (tt, st2) →
  name ≠ QUERY_RULE_ID ∨ is_Some (registry st2 !! name) →
  GetStatusRule name reply' st2
  = Some (("Stopped: canceled manually.", None), st2)
  ∧ metrics_block "Stopped: canceled manually." = false.
Proof.
  intros Hreach Hreg Hstop Hq Hrun Hstill. split; [|done].
  apply reachable_wf in Hreach.
  destruct (StopRule_stopped _ _ _ _ _ Hreach Hstop) as (Hwf1 & Hst1 & Hreg1).
  apply GetStatusRule_stopped; [by eapply run_stopped|].
  destruct Hstill as [Hne|?]; [|done].
  eapply run_registered; [done| |done]. by rewrite Hreg1.
Qed.

(** *** At most one ad-hoc query *)

Lemma stopQuery_total st :
  wf st →
  ∃ stm, stopQuery st = Some (tt, stm) ∧ wf stm ∧
         registry stm = delete QUERY_RULE_ID (registry st) ∧
         rule_heap stm = rule_heap st ∧ store stm = store st ∧
         length (topo_heap stm) = length (topo_heap st).
Proof.
  intros Hwf. destruct (registry st !! QUERY_RULE_ID) as [p|] eqn:Hp.
  - destruct Hwf as [Hr Ht]. destruct (Hr _ _ Hp) as (rs & Hrs & _).
    destruct (lookup_lt_is_Some_2 (topo_heap st) (Topology rs)) as [t Htp];
      [by eapply Ht|].
    eexists. split; [by eapply stopQuery_registered|].
    split_and!; [by wf_frame| done..|by simpl; rewrite length_insert].
  - exists st. split; [by apply stopQuery_absent|].
    split_and!; try done. by rewrite delete_id.
Qed.

Lemma stopQuery_removes st stm :
  stopQuery st = Some (tt, stm) → registry stm !! QUERY_RULE_ID = None.
Proof. intros Hs. run_M; [by rewrite lookup_delete_eq|done]. Qed.

(** [CreateQuery] stops the previous query first: it goes on as a call
    does that finds no entry. *)
Lemma CreateQuery_after_stopQuery sql reply st stm :
  stopQuery st = Some (tt, stm) →
  CreateQuery sql reply st = CreateQuery sql reply stm.
Proof.
  intros Hs. pose proof (stopQuery_removes _ _ Hs) as Hm.
  unfold CreateQuery. cbv [mbind M_bind registry_get read].
  rewrite Hm. destruct (registry st !! QUERY_RULE_ID) as [p|] eqn:Hp.
  - by rewrite Hs.
  - rewrite stopQuery_absent in Hs by done. by simplify_eq.
Qed.

Lemma CreateQuery_fresh sql reply st t s' :
  registry st !! QUERY_RULE_ID = None →
  ExecQuery QUERY_RULE_ID sql (store st) = (Val t, s') →
  CreateQuery sql reply st
  = Some (("Query was submit successfully.", None),
          set_logs (λ l, l ++ ["Query was submit successfully."])
            (set_registry <[QUERY_RULE_ID := length (rule_heap st)]>
               (set_rule_heap
                  (λ h, h ++ [mkRuleState QUERY_RULE_ID
                                (length (topo_heap st)) true])
                  (set_topo_heap (λ h, h ++ [t]) (set_store s' st))))).
Proof. intros Hq He. by follow_M. Qed.

Lemma CreateQuery_wf sql reply st r st' :
  wf st → CreateQuery sql reply st = Some (r, st') → wf st'.
Proof. intros Hwf Hs. run_M; wf_solve. Qed.

(** In a reachable state the entries whose [RuleState] is named
    [QUERY_RULE_ID] are the entry under that key. *)
Lemma wf_query_unique st n p rs :
  wf st → registry st !! n = Some p → rule_heap st !! p = Some rs →
  Name rs = QUERY_RULE_ID → n = QUERY_RULE_ID.
Proof.
  intros [Hr _] Hp Hrs Hn. destruct (Hr _ _ Hp) as (rs' & ? & ?). congruence.
Qed.

(** *** The order of the calls *)

(** The handlers with their calls are the handlers. *)
Lemma stopQuery_traced_erase st :
  erase stopQuery_traced st = stopQuery st.
Proof. unfold_traced. repeat (case_match; simplify_eq/=); done. Qed.

Lemma CreateQuery_traced_erase sql reply st :
  erase (CreateQuery_traced sql reply) st = CreateQuery sql reply st.
Proof. unfold_traced. repeat (case_match; simplify_eq/=); done. Qed.

(** The calls of [stopQuery] on a registered query, in their order. *)
Lemma stopQuery_traced_registered st p rs t :
  registry st !! QUERY_RULE_ID = Some p →
  rule_heap st !! p = Some rs →
  topo_heap st !! Topology rs = Some t →
  stopQuery_traced st
  = Some (tt, set_registry (delete QUERY_RULE_ID)
                (set_topo_heap <[Topology rs := Cancel t]>
                   (set_logs (λ l, l ++ ["stop the query."]) st)),
          [call_Log "stop the query."; call_Cancel (Topology rs);
           call_delete QUERY_RULE_ID]).
Proof. intros Hp Hrs Ht. unfold_traced. by follow_M. Qed.

(** The calls of [CreateQuery] that finds an entry: those of [stopQuery],
    then [ExecQuery], and when it succeeds the new entry and the log
    line. *)
Lemma CreateQuery_traced_registered sql reply st p rs t r st' :
  registry st !! QUERY_RULE_ID = Some p →
  rule_heap st !! p = Some rs →
  topo_heap st !! Topology rs = Some t →
  CreateQuery sql reply st = Some (r, st') →
  CreateQuery_traced sql reply st
  = Some (r, st',
          [call_Log "stop the query."; call_Cancel (Topology rs);
           call_delete QUERY_RULE_ID; call_ExecQuery QUERY_RULE_ID sql] ++
          match r.2 with
          | None => [call_put QUERY_RULE_ID (length (rule_heap st));
                     call_Log "Query was submit successfully."]
          | Some _ => []
          end).
Proof.
  intros Hp Hrs Ht Hc. unfold_traced.
  repeat (simpl in Hc |- *; rewrite ?Hp, ?Hrs, ?Ht in Hc; rewrite ?Hp, ?Hrs, ?Ht).
  repeat (case_match; simplify_eq/=); done.
Qed.

(** The calls of [CreateQuery] that finds no entry. *)
Lemma CreateQuery_traced_fresh sql reply st r st' :
  registry st !! QUERY_RULE_ID = None →
  CreateQuery sql reply st = Some (r, st') →
  CreateQuery_traced sql reply st
  = Some (r, st',
          call_ExecQuery QUERY_RULE_ID sql ::
          match r.2 with
          | None => [call_put QUERY_RULE_ID (length (rule_heap st));
                     call_Log "Query was submit successfully."]
          | Some _ => []
          end).
Proof.
  intros Hp Hc. unfold_traced. rewrite Hp in *. simpl in *.
  repeat (case_match; simplify_eq/=); done.
Qed.

(** [CreateQuery] does not panic in a reachable state. *)
Lemma CreateQuery_total sql reply st :
  wf st → ∃ r st', CreateQuery sql reply st = Some (r, st').
Proof.
  intros Hwf. destruct (stopQuery_total st Hwf) as (stm & Hs & _).
  rewrite (CreateQuery_after_stopQuery _ _ _ _ Hs).
  pose proof (stopQuery_removes _ _ Hs) as Hm.
  destruct (ExecQuery QUERY_RULE_ID sql (store stm)) as [[tp|err] s'] eqn:He;
    eexists _, _; by follow_M.
Qed.

(** [CreateQuery] either returns the error of [ExecQuery] or registers
    the query. *)
Lemma CreateQuery_result sql reply st r st' :
  CreateQuery sql reply st = Some (r, st') →
  (∃ err, r = (reply, Some err)) ∨
  (r = ("Query was submit successfully.", None) ∧
   registry st' !! QUERY_RULE_ID = Some (length (rule_heap st))).
Proof.
  intros Hc. run_M; first [by left; eexists | right; split; [done|]];
    simpl; by rewrite lookup_insert_eq.
Qed.

(** Whenever [CreateQuery] finds an entry of the ad-hoc query, it runs
    [stopQuery] first, which calls [Cancel] on the entry's topology and
    deletes the entry, and only then calls [ExecQuery] and, when that
    succeeds, registers the new entry. *)
Lemma CreateQuery_stops_previous sql reply st p :
  reachable st → registry st !! QUERY_RULE_ID = Some p →
  ∃ rs t stm r st' rest,
    rule_heap st !! p = Some rs ∧ topo_heap st !! Topology rs = Some t ∧
    stopQuery st = Some (tt, stm) ∧
    registry stm !! QUERY_RULE_ID = None ∧
    topo_heap stm !! Topology rs = Some (Cancel t) ∧
    CreateQuery sql reply st = CreateQuery sql reply stm ∧
    CreateQuery sql reply st = Some (r, st') ∧
    CreateQuery_traced sql reply st
    = Some (r, st',
            [call_Log "stop the query."; call_Cancel (Topology rs);
             call_delete QUERY_RULE_ID; call_ExecQuery QUERY_RULE_ID sql]
            ++ rest) ∧
    (rest = [] ∧ (∃ err, r = (reply, Some err)) ∨
     ∃ p', rest = [call_put QUERY_RULE_ID p';
                   call_Log "Query was submit successfully."] ∧
           r = ("Query was submit successfully.", None) ∧
           registry st' !! QUERY_RULE_ID = Some p').
Proof.
  intros Hreach Hp.
  destruct (reachable_entry_valid _ _ _ Hreach Hp) as (rs & t & Hrs & _ & Ht).
  pose proof (stopQuery_registered st p rs t Hp Hrs Ht) as Hs.
  destruct (CreateQuery_total sql reply st (reachable_wf _ Hreach))
    as (r & st' & Hc).
  pose proof (CreateQuery_traced_registered _ _ _ _ _ _ _ _ Hp Hrs Ht Hc) as Htr.
  eexists rs, t, _, r, st', _.
  split_and!; [done..| | |by apply CreateQuery_after_stopQuery|done|exact Htr|].
  - simpl. apply lookup_delete_eq.
  - simpl. apply list_lookup_insert_eq. by eapply lookup_lt_Some.
  - destruct (CreateQuery_result _ _ _ _ _ Hc) as [[err ->]|[-> Hq]].
    + left. split; [done|by exists err].
    + right. by eexists.
Qed.

(** C4. In every reachable state the only entry whose [RuleState] is an
    ad-hoc query is the one under [QUERY_RULE_ID].  Whenever [CreateQuery]
    is called while that entry exists, its calls are, in this order: the
    log line of [stopQuery], [Cancel] on the topology of the entry, the
    [delete] of the entry from the registry, and only then [ExecQuery] of
    the new query; when [ExecQuery] succeeds the new entry is put into the
    registry after that, and when it fails nothing more is called.  When
    [CreateQuery] is called twice in a row and [ExecQuery] succeeds both
    times, the calls of the second are exactly: the log line, [Cancel] on
    the topology of the first query, [delete] of its entry, [ExecQuery],
    [put] of the second entry, the log line; afterwards the registry holds
    exactly one query entry, that of the second call, with [Triggered]
    true, and the topology of the first is cancelled.  [CreateQuery_traced]
    is [CreateQuery] with its calls: without them it is [CreateQuery]. *)
Theorem CreateQuery_twice sql1 sql2 reply1 reply2 st t1 s1 t2 s2 :
  reachable st →
  ExecQuery QUERY_RULE_ID sql1 (store st) = (Val t1, s1) →
  ExecQuery QUERY_RULE_ID sql2 s1 = (Val t2, s2) →
  (∀ sql reply st0,
     erase (CreateQuery_traced sql reply) st0 = CreateQuery sql reply st0) ∧
  (∀ n p rs, registry st !! n = Some p → rule_heap st !! p = Some rs →
             Name rs = QUERY_RULE_ID → n = QUERY_RULE_ID) ∧
  (∀ sql reply p,
     registry st !! QUERY_RULE_ID = Some p →
     ∃ rs t stm0 r st' rest,
       rule_heap st !! p = Some rs ∧ topo_heap st !! Topology rs = Some t ∧
       stopQuery st = Some (tt, stm0) ∧
       registry stm0 !! QUERY_RULE_ID = None ∧
       topo_heap stm0 !! Topology rs = Some (Cancel t) ∧
       CreateQuery sql reply st = CreateQuery sql reply stm0 ∧
       CreateQuery sql reply st = Some (r, st') ∧
       CreateQuery_traced sql reply st
       = Some (r, st',
               [call_Log "stop the query."; call_Cancel (Topology rs);
                call_delete QUERY_RULE_ID; call_ExecQuery QUERY_RULE_ID sql]
               ++ rest) ∧
       (rest = [] ∧ (∃ err, r = (reply, Some err)) ∨
        ∃ p', rest = [call_put QUERY_RULE_ID p';
                      call_Log "Query was submit successfully."] ∧
              r = ("Query was submit successfully.", None) ∧
              registry st' !! QUERY_RULE_ID = Some p')) ∧
  ∃ st1 stm st2 p1 p2 tp1 tp2 calls1,
    CreateQuery sql1 reply1 st
    = Some (("Query was submit successfully.", None), st1) ∧
    registry st1 !! QUERY_RULE_ID = Some p1 ∧
    rule_heap st1 !! p1 = Some (mkRuleState QUERY_RULE_ID tp1 true) ∧
    topo_heap st1 !! tp1 = Some t1 ∧
    stopQuery st1 = Some (tt, stm) ∧
    registry stm !! QUERY_RULE_ID = None ∧
    topo_heap stm !! tp1 = Some (Cancel t1) ∧
    CreateQuery sql2 reply2 st1 = CreateQuery sql2 reply2 stm ∧
    CreateQuery sql2 reply2 st1
    = Some (("Query was submit successfully.", None), st2) ∧
    registry st2 !! QUERY_RULE_ID = Some p2 ∧
    rule_heap st2 !! p2 = Some (mkRuleState QUERY_RULE_ID tp2 true) ∧
    topo_heap st2 !! tp2 = Some t2 ∧
    topo_heap st2 !! tp1 = Some (Cancel t1) ∧
    p1 ≠ p2 ∧ tp1 ≠ tp2 ∧
    (∀ n p rs, registry st2 !! n = Some p → rule_heap st2 !! p = Some rs →
               Name rs = QUERY_RULE_ID → n = QUERY_RULE_ID ∧ p = p2) ∧
    CreateQuery_traced sql1 reply1 st
    = Some (("Query was submit successfully.", None), st1,
            calls1 ++ [call_ExecQuery QUERY_RULE_ID sql1;
                       call_put QUERY_RULE_ID p1;
                       call_Log "Query was submit successfully."]) ∧
    CreateQuery_traced sql2 reply2 st1
    = Some (("Query was submit successfully.", None), st2,
            [call_Log "stop the query."; call_Cancel tp1;
             call_delete QUERY_RULE_ID; call_ExecQuery QUERY_RULE_ID sql2;
             call_put QUERY_RULE_ID p2;
             call_Log "Query was submit successfully."]).
Proof.
  intros Hreach He1 He2. apply reachable_wf in Hreach as Hwf.
  split; [intros sql reply st0; apply CreateQuery_traced_erase|].
  split; [intros n p rs; by apply wf_query_unique|].
  split; [intros sql reply p; by apply CreateQuery_stops_previous|].
  destruct (stopQuery_total st Hwf)
    as (stm0 & Hs0 & Hwf0 & Hreg0 & Hheap0 & Hstore0 & Hlen0).
  assert (Hq0 : registry stm0 !! QUERY_RULE_ID = None)
    by (rewrite Hreg0; apply lookup_delete_eq).
  rewrite <- Hstore0 in He1.
  pose proof (CreateQuery_fresh sql1 reply1 stm0 t1 s1 Hq0 He1) as Hc1.
  rewrite <- (CreateQuery_after_stopQuery _ _ _ _ Hs0) in Hc1.
  set (p1 := length (rule_heap stm0)) in *.
  set (tp1 := length (topo_heap stm0)) in *.
  match type of Hc1 with _ = Some (_, ?x) => set (st1 := x) in * end.
  assert (Hwf1 : wf st1) by exact (CreateQuery_wf _ _ _ _ _ Hwf Hc1).
  assert (Hp1 : registry st1 !! QUERY_RULE_ID = Some p1)
    by (simpl; apply lookup_insert_eq).
  assert (Hrs1 : rule_heap st1 !! p1 = Some (mkRuleState QUERY_RULE_ID tp1 true))
    by (simpl; by rewrite lookup_app_r, Nat.sub_diag).
  assert (Htp1 : topo_heap st1 !! tp1 = Some t1)
    by (simpl; by rewrite lookup_app_r, Nat.sub_diag).
  pose proof (stopQuery_registered st1 _ _ _ Hp1 Hrs1 Htp1) as Hs1.
  match type of Hs1 with _ = Some (_, ?x) => set (stm := x) in * end.
  assert (Hqm : registry stm !! QUERY_RULE_ID = None)
    by (simpl; apply lookup_delete_eq).
  assert (Hem : ExecQuery QUERY_RULE_ID sql2 (store stm) = (Val t2, s2)) by done.
  pose proof (CreateQuery_fresh sql2 reply2 stm t2 s2 Hqm Hem) as Hc2.
  rewrite <- (CreateQuery_after_stopQuery _ _ _ _ Hs1) in Hc2.
  match type of Hc2 with _ = Some (_, ?x) => set (st2 := x) in * end.
  assert (Hwf2 : wf st2) by exact (CreateQuery_wf _ _ _ _ _ Hwf1 Hc2).
  assert (Hlenr : length (rule_heap stm) = S p1)
    by (simpl; rewrite length_app; simpl; lia).
  assert (Hlent : length (topo_heap stm) = S tp1)
    by (simpl; rewrite length_insert, length_app; simpl; lia).
  assert (Hp2 : registry st2 !! QUERY_RULE_ID = Some (S p1))
    by (simpl; rewrite lookup_insert_eq; f_equal; exact Hlenr).
  assert (Hcalls1 : ∃ calls1,
            CreateQuery_traced sql1 reply1 st
            = Some (("Query was submit successfully.", None), st1,
                    calls1 ++ [call_ExecQuery QUERY_RULE_ID sql1;
                               call_put QUERY_RULE_ID p1;
                               call_Log "Query was submit successfully."])).
  { unfold p1. rewrite Hheap0.
    destruct (registry st !! QUERY_RULE_ID) as [p|] eqn:Hp.
    - destruct (reachable_entry_valid _ _ _ Hreach Hp)
        as (rs & t & Hrs & _ & Ht).
      eexists [_; _; _].
      exact (CreateQuery_traced_registered _ _ _ _ _ _ _ _ Hp Hrs Ht Hc1).
    - exists []. exact (CreateQuery_traced_fresh _ _ _ _ _ Hp Hc1). }
  destruct Hcalls1 as [calls1 Hcalls1].
  exists st1, stm, st2, p1, (S p1), tp1, (S tp1), calls1.
  split_and!; try done; try lia.
  - simpl. apply list_lookup_insert_eq. rewrite length_app. simpl. lia.
  - by apply CreateQuery_after_stopQuery.
  - change (rule_heap st2) with
      (rule_heap stm ++ [mkRuleState QUERY_RULE_ID (length (topo_heap stm)) true]).
    by rewrite <- Hlenr, lookup_app_r, Nat.sub_diag, Hlent.
  - change (topo_heap st2) with (topo_heap stm ++ [t2]).
    by rewrite <- Hlent, lookup_app_r, Nat.sub_diag.
  - change (topo_heap st2) with (topo_heap stm ++ [t2]).
    rewrite lookup_app_l by lia. simpl.
    apply list_lookup_insert_eq. rewrite length_app. simpl. lia.
  - intros n p rs Hp Hrs Hn.
    assert (n = QUERY_RULE_ID) as -> by by eapply wf_query_unique.
    split; [done|]. congruence.
  - rewrite (CreateQuery_traced_registered _ _ _ _ _ _ _ _ Hp1 Hrs1 Htp1 Hc2).
    simpl. rewrite length_app. simpl.
    by replace (length (rule_heap stm0) + 1) with (S p1) by (unfold p1; lia).
Qed.

End Proofs.

(** ** Further properties of the server *)

Section More.

Context {Store Rule Topo : Type}.
Context `{!TopologyOps Topo} `{!RuleProcessor Store Rule Topo} `{!GoLib}.
Implicit Types st : @ServerState Store Topo.

(** *** Pointers and panics *)

(** No step shrinks a heap. *)
Lemma step_heaps_grow e st st' :
  step e st = Some (tt, st') →
  (length (rule_heap st) ≤ length (rule_heap st'))%nat ∧
  (length (topo_heap st) ≤ length (topo_heap st'))%nat.
Proof.
  intros Hs. destruct e; run_M;
    rewrite ?length_insert, ?length_app, ?length_insert; simpl; lia.
Qed.

Lemma monitor_ok_mono st st' g :
  (length (rule_heap st) ≤ length (rule_heap st'))%nat →
  (length (topo_heap st) ≤ length (topo_heap st'))%nat →
  monitor_ok st g → monitor_ok st' g.
Proof. destruct g; simpl; lia. Qed.

Lemma step_monitors_ok e st st' :
  monitors_ok st → step e st = Some (tt, st') → monitors_ok st'.
Proof.
  intros Hm Hs.
  destruct (step_heaps_grow _ _ _ Hs) as [Hr Ht].
  assert (Hold : ∀ i g, goroutines st !! i = Some g → monitor_ok st' g).
  { intros i g Hg. eapply monitor_ok_mono; [done..|by eapply Hm]. }
  clear Hr Ht Hm.
  destruct e; run_M; try done.
  all: intros j g Hg; simpl in Hg.
  all: first
    [ apply lookup_app_Some in Hg as [Hg|[_ Hg]];
      [by eapply Hold|apply list_lookup_singleton_Some in Hg as [_ <-]]
    | apply list_lookup_insert_Some in Hg as [(_ & <- & _)|[_ Hg]];
      [|by eapply Hold] ].
  all: repeat match goal with
       | H : _ !! _ = Some _ |- _ => apply lookup_lt_Some in H
       end.
  all: simpl in *; rewrite ?length_insert, ?length_app in *; simpl in *; lia.
Qed.

Lemma metrics_loop_None i keys values metrics :
  metrics_loop i keys values metrics = None ↔
  keys ≠ [] ∧ length values < i + length keys.
Proof.
  revert i metrics. induction keys as [|key keys IH]; intros i metrics; simpl.
  - split; [done|]. by intros [? _].
  - destruct (values !! i) as [[v|v]|] eqn:Hv.
    + rewrite IH. apply lookup_lt_Some in Hv.
      split; [intros [? ?]; split; [done|lia]|].
      intros [_ ?]. destruct keys; simpl in *; [lia|]. split; [done|lia].
    + rewrite IH. apply lookup_lt_Some in Hv.
      split; [intros [? ?]; split; [done|lia]|].
      intros [_ ?]. destruct keys; simpl in *; [lia|]. split; [done|lia].
    + apply lookup_ge_None in Hv. split; [intros _; split; [done|lia]|done].
Qed.

Lemma step_panics e st :
  wf st → monitors_ok st → step e st = None → panics_at e st.
Proof.
  intros [Hr Ht] Hm Hs. destruct e; run_M.
  all: repeat match goal with
       | H : <[?p := _]> ?l !! ?p = Some _ |- _ =>
           rewrite list_lookup_insert_eq in H
             by (first [by eapply lookup_lt_Some | rewrite ?length_insert; by eapply lookup_lt_Some]);
           simplify_eq/=
       | H : (?l ++ [_]) !! length ?l = Some _ |- _ =>
           rewrite lookup_app_r, Nat.sub_diag in H by lia; simplify_eq/=
       | H : negb _ = false |- _ => apply negb_false_iff in H
       | H : metrics_loop 0 _ _ _ = None |- _ =>
           apply metrics_loop_None in H; destruct H as [_ H]
       end.
  all: try (lazymatch goal with |- False => fail | _ => idtac end;
            repeat eexists; eassumption).
  all: exfalso.
  all: repeat match goal with
       | H : goroutines _ !! _ = Some _ |- _ => apply Hm in H; simpl in H
       | H : registry _ !! _ = Some _ |- _ => apply Hr in H as (? & ? & ?)
       end; simplify_eq/=.
  all: repeat match goal with
       | H : rule_heap _ !! _ = Some _ |- _ =>
           pose proof (Ht _ _ H); apply lookup_lt_Some in H
       | H : _ !! _ = Some _ |- _ => apply lookup_lt_Some in H
       | H : _ !! _ = None |- _ => apply lookup_ge_None in H
       end.
  all: simpl in *; rewrite ?length_insert, ?length_app in *; simpl in *; lia.
Qed.

Lemma panics_at_step e st : panics_at e st → step e st = None.
Proof.
  destruct e; simpl; try done.
  - intros (p & rs & t & c & keys & values & Hp & Hrs & Htr & Ht & Hc & He & Hm & Hl).
    assert (metrics_loop 0 keys values "{" = None) as Hloop.
    { apply metrics_loop_None. split; [|simpl; lia]. by destruct keys; [simpl in Hl; lia|]. }
    by follow_M.
  - intros (rs & tp & t & Hg & Ht & Hc). by follow_M.
Qed.

Lemma run_monitors_ok tr st st' :
  monitors_ok st → run tr st = Some (tt, st') → monitors_ok st'.
Proof.
  revert st. induction tr as [|e tr IH]; intros st Hm Hr.
  - rewrite run_nil in Hr. by simplify_eq.
  - rewrite run_cons in Hr.
    destruct (step e st) as [[[] st1]|] eqn:Hs; [|done].
    eapply IH; [|done]. by eapply step_monitors_ok.
Qed.

Lemma reachable_monitors_ok st : reachable st → monitors_ok st.
Proof.
  intros (s & q & tr & Hr). eapply run_monitors_ok; [|done].
  intros i g Hg. simpl in Hg. by rewrite lookup_nil in Hg.
Qed.

(** X2. From a reachable state a step of the server panics in two cases
    only: [GetStatusRule] on a triggered rule whose context reports no
    error and whose [GetMetrics] gives fewer values than keys (the index
    [values[i]] is out of range), and the goroutine of [doStartRule] that
    receives the end of a pipeline whose [GetContext()] is nil. *)
Theorem step_panics_exactly e st :
  reachable st → step e st = None ↔ panics_at e st.
Proof.
  intros Hreach. split; [|apply panics_at_step].
  apply step_panics; [by apply reachable_wf|by apply reachable_monitors_ok].
Qed.

(** X1. In every reachable state each registry entry leads to an allocated
    [RuleState] whose [Name] is the key of the entry and whose topology
    is allocated, no [RuleState] is registered under two names, and the
    pointers the goroutines of [doStartRule] captured are allocated. *)
Theorem reachable_registry_consistent st :
  reachable st →
  (∀ n p, registry st !! n = Some p →
          ∃ rs t, rule_heap st !! p = Some rs ∧ Name rs = n ∧
                  topo_heap st !! Topology rs = Some t) ∧
  (∀ n1 n2 p, registry st !! n1 = Some p → registry st !! n2 = Some p →
              n1 = n2) ∧
  (∀ i g, goroutines st !! i = Some g →
          match g with
          | Spawned rs => is_Some (rule_heap st !! rs)
          | Waiting rs tp =>
              is_Some (rule_heap st !! rs) ∧ is_Some (topo_heap st !! tp)
          | Exited => True
          end).
Proof.
  intros Hreach. split_and!.
  - intros n p. by apply reachable_entry_valid.
  - intros n1 n2 p. apply wf_registry_inj. by apply reachable_wf.
  - intros i g Hg. apply reachable_monitors_ok in Hreach.
    specialize (Hreach i g Hg). destruct g; simpl in *; [..|done].
    + by apply lookup_lt_is_Some_2.
    + destruct Hreach. split; by apply lookup_lt_is_Some_2.
Qed.


(** *** The fields of a RuleState *)

Implicit Types h : list RuleState.

Lemma heap_ext_refl h : heap_ext h h.
Proof. intros p rs Hp. by exists rs. Qed.

Lemma heap_ext_trans h1 h2 h3 : heap_ext h1 h2 → heap_ext h2 h3 → heap_ext h1 h3.
Proof.
  intros H12 H23 p rs Hp. destruct (H12 _ _ Hp) as (rs2 & Hp2 & ? & ?).
  destruct (H23 _ _ Hp2) as (rs3 & Hp3 & ? & ?). exists rs3. split_and!; congruence.
Qed.

Lemma heap_ext_Triggered h q b r :
  h !! q = Some r → heap_ext h (<[q := with_Triggered b r]> h).
Proof.
  intros Hq p rs Hp. destruct (decide (p = q)) as [->|Hne].
  - exists (with_Triggered b r). simplify_eq.
    split; [|done]. apply list_lookup_insert_eq. by eapply lookup_lt_Some.
  - exists rs. by rewrite list_lookup_insert_ne.
Qed.

Lemma heap_ext_app h x : heap_ext h (h ++ [x]).
Proof. intros p rs Hp. exists rs. split; [|done]. by apply lookup_app_l_Some. Qed.

Ltac heap_ext_solve :=
  simpl;
  repeat first
    [ apply heap_ext_refl
    | eapply heap_ext_trans; [|by apply heap_ext_Triggered]
    | eapply heap_ext_trans; [|by apply heap_ext_app] ].

Lemma step_heap_ext e st st' :
  step e st = Some (tt, st') → heap_ext (rule_heap st) (rule_heap st').
Proof. intros Hs. destruct e; run_M; heap_ext_solve. Qed.

(** X3. Along every run an allocated [RuleState] stays allocated and
    keeps its [Name] and its [Topology]: no request, goroutine or tick
    assigns these fields. *)
Theorem run_RuleState_fields tr st st' p rs :
  run tr st = Some (tt, st') → rule_heap st !! p = Some rs →
  ∃ rs', rule_heap st' !! p = Some rs' ∧ Name rs' = Name rs ∧
         Topology rs' = Topology rs.
Proof.
  revert st rs. induction tr as [|e tr IH]; intros st rs Hr Hp.
  - rewrite run_nil in Hr. simplify_eq. by exists rs.
  - rewrite run_cons in Hr.
    destruct (step e st) as [[[] st1]|] eqn:Hs; [|done].
    destruct (step_heap_ext _ _ _ Hs _ _ Hp) as (rs1 & Hp1 & ? & ?).
    destruct (IH _ _ Hr Hp1) as (rs' & Hp' & ? & ?).
    exists rs'. split_and!; congruence.
Qed.

(** [Triggered] of an allocated [RuleState] changes only by a request on
    the name it is registered under. *)
(** X4. [Triggered] of an allocated [RuleState] changes only by a request
    on the name it is registered under: from true to false by [StopRule]
    or [DropRule] of that name, from false to true by [StartRule] or
    [RestartRule] of that name.  The end of a pipeline, the watchdog and
    [CreateQuery] never change it. *)
Theorem step_Triggered_changes e st st' p rs rs' :
  step e st = Some (tt, st') →
  rule_heap st !! p = Some rs → rule_heap st' !! p = Some rs' →
  Triggered rs' ≠ Triggered rs →
  ∃ name, registry st !! name = Some p ∧
          if Triggered rs
          then e = EStopRule name ∨ e = EDropRule name
          else e = EStartRule name ∨ e = ERestartRule name.
Proof.
  intros Hs Hp Hp' Hne.
  assert (Hlt : p < length (rule_heap st)) by by eapply lookup_lt_Some.
  destruct e; run_M; try done.
  all: rewrite ?list_insert_insert_eq in *.
  all: repeat match goal with
       | H : <[_ := _]> _ !! _ = Some _ |- _ =>
           apply list_lookup_insert_Some in H as [(? & ? & ?)|[? ?]]
       | H : (_ ++ [_]) !! _ = Some _ |- _ =>
           apply lookup_app_Some in H as [?|[? ?]]
       end; simplify_eq/=; try lia; try done.
  all: try (eexists; split; [eassumption|]; auto; fail).
Qed.

(** *** GetStatusRule *)

Lemma string_app_cons (x : ascii) (a b : string) :
  String x a +:+ b = String x (a +:+ b).
Proof. reflexivity. Qed.

Lemma string_app_assoc (a b c : string) : (a +:+ b) +:+ c = a +:+ (b +:+ c).
Proof. induction a as [|x a IH]; [done|]. by rewrite !string_app_cons, IH. Qed.

Lemma string_app_nil_r (a : string) : a +:+ EmptyString = a.
Proof. induction a as [|x a IH]; [done|]. by rewrite string_app_cons, IH. Qed.

Lemma but_last_snoc (s : string) (c : ascii) :
  but_last (s +:+ String c EmptyString) = s.
Proof.
  induction s as [|x s IH]; [done|].
  rewrite string_app_cons. simpl. rewrite IH. by destruct s.
Qed.

(** The loop appends one member and a comma for each key. *)
Lemma metrics_loop_Some i (keys : list string) (values : list metric) metrics :
  (i + length keys ≤ length values)%nat →
  metrics_loop i keys values metrics
  = Some (metrics +:+
          foldr (λ m acc, m +:+ "," +:+ acc) EmptyString
                (zip_with metric_entry keys (drop i values))).
Proof.
  revert i metrics. induction keys as [|key keys IH]; intros i metrics Hl; simpl.
  - by rewrite string_app_nil_r.
  - simpl in Hl.
    destruct (lookup_lt_is_Some_2 values i) as [v Hv]; [lia|].
    rewrite Hv, (drop_S _ _ _ Hv). simpl.
    destruct v as [v|v]; rewrite IH by lia; f_equal;
      unfold metric_entry; by rewrite !string_app_assoc.
Qed.

Lemma members_commas (m : string) (ms : list string) :
  foldr (λ m acc, m +:+ "," +:+ acc) EmptyString (m :: ms)
  = String.concat "," (m :: ms) +:+ ",".
Proof.
  revert m. induction ms as [|m' ms IH]; intros m.
  - simpl. done.
  - change (foldr _ _ (m :: m' :: ms)) with
      (m +:+ "," +:+ foldr (λ m acc, m +:+ "," +:+ acc) EmptyString (m' :: ms)).
    rewrite IH.
    change (String.concat "," (m :: m' :: ms)) with
      (m +:+ "," +:+ String.concat "," (m' :: ms)).
    by rewrite !string_app_assoc.
Qed.

Lemma metrics_loop_text (keys : list string) (values : list metric) :
  (length keys ≤ length values)%nat →
  ∃ metrics, metrics_loop 0 keys values "{" = Some metrics ∧
             but_last metrics +:+ "}" = metrics_text keys values.
Proof.
  intros Hl. eexists. split; [by apply metrics_loop_Some|].
  rewrite drop_0. destruct keys as [|key keys]; [done|].
  destruct values as [|v values]; [simpl in Hl; lia|].
  unfold metrics_text, json_object.
  change (zip_with metric_entry (key :: keys) (v :: values)) with
    (metric_entry key v :: zip_with metric_entry keys values).
  rewrite members_commas.
  rewrite <- string_app_assoc, but_last_snoc. by rewrite string_app_assoc.
Qed.

(** X7. For a triggered rule whose context reports no error and whose
    metrics have a value for every key, [GetStatusRule] replies
    "Running with metrics:", a newline and the JSON object with one
    member per key, the members separated by commas, indented by
    [json.Indent] when that succeeds.  With no key at all the text is the
    lone closing brace: the cut of the last character removes the
    opening one. *)
Theorem GetStatusRule_running name reply st p rs t c keys values :
  registry st !! name = Some p →
  rule_heap st !! p = Some rs →
  Triggered rs = true →
  topo_heap st !! Topology rs = Some t →
  GetContext t = Some c →
  Err c = None →
  GetMetrics t = (keys, values) →
  (length keys ≤ length values)%nat →
  GetStatusRule name reply st
  = Some (("Running with metrics:" +:+ nl +:+
           default (metrics_text keys values)
                   (json_Indent (metrics_text keys values)), None), st).
Proof.
  intros Hp Hrs Htr Ht Hc He Hm Hl.
  destruct (metrics_loop_text keys values Hl) as (metrics & Hloop & Htext).
  follow_M. by destruct (json_Indent _).
Qed.


(** X5. [GetStatusRule] never changes the state.  It returns an error
    exactly when the name is not registered, and then the error is
    "Rule <name> is not found" and [*reply] is not written. *)
Theorem GetStatusRule_reads name reply st reply' err st' :
  GetStatusRule name reply st = Some ((reply', err), st') →
  st' = st ∧
  match registry st !! name with
  | Some _ => err = None
  | None => err = Some (errorString ("Rule " +:+ name +:+ " is not found"))
            ∧ reply' = reply
  end.
Proof. intros Hg. by run_M. Qed.

(** X6. A reply of [GetStatusRule] is a metrics block exactly when the
    rule is triggered, its topology has a context and the context
    reports no error. *)
Theorem GetStatusRule_metrics_iff name reply st reply' st' :
  GetStatusRule name reply st = Some ((reply', None), st') →
  metrics_block reply' = true ↔
  ∃ p rs t c, registry st !! name = Some p ∧ rule_heap st !! p = Some rs ∧
              Triggered rs = true ∧ topo_heap st !! Topology rs = Some t ∧
              GetContext t = Some c ∧ Err c = None.
Proof.
  intros Hg. split.
  - intros Hb. run_M; try (by vm_compute in Hb).
    all: repeat match goal with
         | H : negb _ = false |- _ => apply negb_false_iff in H
         end; eauto 10.
  - intros (p & rs & t & c & Hp & Hrs & Htr & Ht & Hc & He).
    revert Hg. follow_M. intros Hg.
    repeat (case_match; simplify_eq/=); apply metrics_block_running.
Qed.

(** *** The buffer of the query and the watchdog *)

Lemma strings_Join_app (l1 l2 : list string) :
  strings_Join (l1 ++ l2) = strings_Join l1 +:+ strings_Join l2.
Proof.
  induction l1 as [|x l1 IH]; [done|]. simpl. rewrite IH.
  generalize (strings_Join l1) (strings_Join l2). intros a b.
  induction x as [|c x IHx]; [done|]. change ((String c x +:+ a) +:+ b)
    with (String c ((x +:+ a) +:+ b)). by rewrite <- IHx.
Qed.

Lemma GetQueryResult_alive qid reply now st :
  query_alive st →
  GetQueryResult qid reply now st
  = Some ((strings_Join (Results (QR st)), None),
          set_QR (λ q, mkQueryResult
                         (if decide (0 < length (Results q))
                          then make_strings 10 else Results q) now) st).
Proof.
  intros Ha. destruct (registry st !! QUERY_RULE_ID) as [p|] eqn:Hp.
  - destruct (Ha p Hp) as (rs & t & Hrs & Ht & Hc).
    by eapply GetQueryResult_fetch_live.
  - by apply GetQueryResult_fetch.
Qed.

(** X8. While the query has no error to report, a fetch returns the
    fragments of the buffer joined and sets [LastFetch]; what it leaves
    in the buffer joins to the empty string, so that the next fetch
    returns exactly the fragments the sink appended in between: every
    fragment is returned once. *)
Theorem GetQueryResult_round_trip qid reply1 reply2 n1 n2 l st :
  query_alive st →
  ∃ st1 st2,
    GetQueryResult qid reply1 n1 st
    = Some ((strings_Join (Results (QR st)), None), st1) ∧
    LastFetch (QR st1) = n1 ∧
    strings_Join (Results (QR st1)) = EmptyString ∧
    GetQueryResult qid reply2 n2 (sink_append l st1)
    = Some ((strings_Join l, None), st2) ∧
    LastFetch (QR st2) = n2.
Proof.
  intros Ha. eexists _, _. split; [by apply GetQueryResult_alive|].
  assert (Hj : ∀ r : list string,
             strings_Join (if decide (0 < length r) then make_strings 10 else r)
             = EmptyString).
  { intros r. case_decide; [apply strings_Join_make|].
    destruct r; [done|simpl in *; lia]. }
  split; [done|]. split; [apply Hj|].
  rewrite GetQueryResult_alive by done. simpl.
  by rewrite strings_Join_app, Hj.
Qed.


(** X10. After the watchdog has reclaimed a stale query, a fetch is served
    as with no query: it returns the buffered fragments and no error,
    whatever the context of the cancelled topology reports. *)
Theorem watchdog_then_fetch qid reply now now' st p rs t :
  registry st !! QUERY_RULE_ID = Some p →
  rule_heap st !! p = Some rs →
  topo_heap st !! Topology rs = Some t →
  (10 * Second ≤ now - LastFetch (QR st))%Z →
  ∃ st1 st2,
    watchdog_tick now st = Some (tt, st1) ∧
    registry st1 !! QUERY_RULE_ID = None ∧
    GetQueryResult qid reply now' st1
    = Some ((strings_Join (Results (QR st)), None), st2) ∧
    LastFetch (QR st2) = now'.
Proof.
  intros Hp Hrs Ht Hold. apply time_Sub_ge in Hold.
  eexists _, _. split.
  { unfold_M. rewrite Hp. simpl. rewrite decide_True by done. by follow_M. }
  split; [simpl; apply lookup_delete_eq|].
  rewrite GetQueryResult_fetch by (simpl; apply lookup_delete_eq).
  done.
Qed.

Lemma watchdog_tick_idle now st :
  registry st !! QUERY_RULE_ID = None ∨
  ¬ (10 * Second ≤ time_Sub now (LastFetch (QR st)))%Z →
  watchdog_tick now st = Some (tt, st).
Proof.
  intros Hi. unfold_M. destruct (registry st !! QUERY_RULE_ID); [|done].
  destruct Hi as [?|Hi]; [done|]. simpl. by rewrite decide_False.
Qed.

(** X11. A tick of the watchdog touches nothing but the entry of the
    ad-hoc query and the topology it cancels: the other entries, the
    [RuleState]s, [sinks.QR], the store and the goroutines stay, and a
    second tick at the same instant changes nothing. *)
Theorem watchdog_tick_frame now st st' :
  watchdog_tick now st = Some (tt, st') →
  (∀ name, name ≠ QUERY_RULE_ID → registry st' !! name = registry st !! name) ∧
  rule_heap st' = rule_heap st ∧ QR st' = QR st ∧ store st' = store st ∧
  goroutines st' = goroutines st ∧
  watchdog_tick now st' = Some (tt, st').
Proof.
  intros Hs.
  assert (Hidle : registry st' !! QUERY_RULE_ID = None ∨
                  ¬ (10 * Second ≤ time_Sub now (LastFetch (QR st')))%Z).
  { run_M; simpl; rewrite ?lookup_delete_eq; auto. }
  split_and!; [..|by apply watchdog_tick_idle]; run_M; try done.
  intros name Hne. by rewrite lookup_delete_ne.
Qed.

(** X14. [RestartRule] of a name that is not registered is [StartRule] of
    that name: the same state, the same error; on success the reply is
    "Rule <name> was restarted.", on failure it is the "not found" text
    [StopRule] wrote. *)
Theorem RestartRule_not_registered name reply st :
  registry st !! name = None →
  RestartRule name reply st
  = (λ '((reply', err), st'),
       (match err with
        | Some _ => (reply', err)
        | None => ("Rule " +:+ name +:+ " was restarted.", None)
        end, st'))
    <$> StartRule name ("Rule " +:+ name +:+ " was not found.") st.
Proof.
  intros Hn. unfold RestartRule, StopRule.
  cbv [mbind M_bind mret M_ret registry_get read]. rewrite Hn.
  destruct (StartRule name _ st) as [[[reply' [e|]] st']|]; done.
Qed.

(** [StartRule] of a registered rule. *)
Lemma StartRule_registered name reply st p rs :
  registry st !! name = Some p →
  rule_heap st !! p = Some rs →
  StartRule name reply st
  = Some (("Rule " +:+ name +:+ " was started", None),
          set_goroutines (λ g, g ++ [Spawned p])
            (set_rule_heap <[p := with_Triggered true rs]> st)).
Proof. intros Hp Hrs. by follow_M. Qed.

(** X12. [StartRule] of a registered rule always succeeds, and it is not
    idempotent: every call spawns one more goroutine on the rule's
    [RuleState], whether or not the rule is running already.  After k+1
    calls there are k+1 more goroutines, [Triggered] is true, and the
    registry, the store and the topologies are as before: the store is
    not consulted and no topology is created. *)
Theorem StartRule_repeated name k st p rs :
  registry st !! name = Some p →
  rule_heap st !! p = Some rs →
  ∃ st', run (replicate (S k) (EStartRule name)) st = Some (tt, st') ∧
         goroutines st' = goroutines st ++ replicate (S k) (Spawned p) ∧
         rule_heap st' = <[p := with_Triggered true rs]> (rule_heap st) ∧
         registry st' = registry st ∧ store st' = store st ∧
         topo_heap st' = topo_heap st.
Proof.
  revert st rs. induction k as [|k IH]; intros st rs Hp Hrs.
  - eexists. split.
    { change (replicate 1 (EStartRule name)) with [EStartRule (Topo := Topo) name].
      rewrite run_cons. simpl. unfold serve. cbv [mbind M_bind mret M_ret].
      by rewrite (StartRule_registered _ _ _ _ _ Hp Hrs). }
    done.
  - pose proof (lookup_lt_Some _ _ _ Hrs) as Hlt.
    destruct (IH (set_goroutines (λ g, g ++ [Spawned p])
                    (set_rule_heap <[p := with_Triggered true rs]> st))
                 (with_Triggered true rs))
      as (st' & Hrun & Hg & Hh & Hr & Hs & Ht).
    { done. }
    { simpl. by apply list_lookup_insert_eq. }
    exists st'. split.
    { change (replicate (S (S k)) (EStartRule name))
        with (EStartRule (Topo := Topo) name :: replicate (S k) (EStartRule name)).
      rewrite run_cons. simpl. unfold serve. cbv [mbind M_bind mret M_ret].
      by rewrite (StartRule_registered _ _ _ _ _ Hp Hrs). }
    simpl in *. split_and!; try done.
    + rewrite Hg, <- app_assoc. done.
    + rewrite Hh, list_insert_insert_eq. done.
Qed.

(** X13. [StartRule] fails only for a name that is not registered, and a
    failed [StartRule] leaves [*reply] and everything but the store as
    they were: nothing is registered and no goroutine is spawned. *)
Theorem StartRule_failure name reply st reply' e st' :
  StartRule name reply st = Some ((reply', Some e), st') →
  registry st !! name = None ∧ reply' = reply ∧
  st' = set_store (store st') st.
Proof. intros Hs. by run_M. Qed.

(** X15. [DropRule] never changes the registry.  When [ExecDrop] fails
    the error is "Drop rule error : <err>." and the rule is not stopped:
    only the store changes.  When it succeeds the reply is the message
    of [ExecDrop], and a registered rule has received [Cancel] and has
    [Triggered] false. *)
Theorem DropRule_outcome name reply st reply' err st' :
  DropRule name reply st = Some ((reply', err), st') →
  registry st' = registry st ∧
  match ExecDrop name (store st) with
  | (Fail e, s') =>
      err = Some (errorString ("Drop rule error : " +:+ Error e +:+ ".")) ∧
      reply' = reply ∧ st' = set_store s' st
  | (Val r, s') =>
      err = None ∧ reply' = r ∧ store st' = s' ∧
      ∀ p, registry st !! name = Some p →
           ∃ rs t, rule_heap st !! p = Some rs ∧
                   topo_heap st !! Topology rs = Some t ∧
                   rule_heap st' = <[p := with_Triggered false rs]> (rule_heap st) ∧
                   topo_heap st' = <[Topology rs := Cancel t]> (topo_heap st)
  end.
Proof.
  intros Hd. run_M; split; try done.
  all: split_and!; try done.
  all: intros p ?; simplify_eq/=; eauto 10.
Qed.


(** X9. A successful fetch keeps the query: a tick of the watchdog less
    than ten seconds after it changes nothing. *)
Theorem fetch_keeps_query qid reply n1 n2 st :
  query_alive st →
  (n2 - n1 < 10 * Second)%Z →
  ∃ st1, GetQueryResult qid reply n1 st
         = Some ((strings_Join (Results (QR st)), None), st1) ∧
         registry st1 = registry st ∧
         watchdog_tick n2 st1 = Some (tt, st1).
Proof.
  intros Ha Hn. eexists. split; [by apply GetQueryResult_alive|].
  split; [done|]. apply watchdog_tick_idle. right. simpl.
  rewrite time_Sub_ge. lia.
Qed.

(** *** CreateRule, Stream, DescRule, ShowRules *)

(** X16. [CreateRule] for a rule id that is registered already succeeds
    and puts a new [RuleState] with a new topology under the id; [Cancel]
    is not called on the topology of the old entry, which stays as it
    was, and no registry entry leads to the old [RuleState] any more. *)
Theorem CreateRule_orphans name json reply st r s1 t' s2 p :
  reachable st →
  ExecCreate name json (store st) = (Val r, s1) →
  ExecInitRule r s1 = (Val t', s2) →
  registry st !! rule_Id r = Some p →
  ∃ rs t st',
    rule_heap st !! p = Some rs ∧ topo_heap st !! Topology rs = Some t ∧
    CreateRule name json reply st
    = Some (("Rule " +:+ name +:+
             " was created, please use 'cli getstatus rule $rule_name' command to get rule status.",
             None), st') ∧
    registry st' !! rule_Id r = Some (length (rule_heap st)) ∧
    rule_heap st' !! length (rule_heap st)
    = Some (mkRuleState (rule_Id r) (length (topo_heap st)) true) ∧
    topo_heap st' !! length (topo_heap st) = Some t' ∧
    rule_heap st' !! p = Some rs ∧
    topo_heap st' !! Topology rs = Some t ∧
    (∀ n, registry st' !! n ≠ Some p).
Proof.
  intros Hreach Hc Hi Hp.
  destruct (reachable_entry_valid _ _ _ Hreach Hp) as (rs & t & Hrs & Hn & Ht).
  pose proof (lookup_lt_Some _ _ _ Hrs) as Hlt.
  pose proof (lookup_lt_Some _ _ _ Ht) as Hltt.
  exists rs, t. eexists. split; [done|]. split; [done|]. split.
  { unfold_M. rewrite Hc. simpl. rewrite Hi. simpl.
    rewrite lookup_app_r, Nat.sub_diag by done. simpl. reflexivity. }
  simpl. split_and!.
  - apply lookup_insert_eq.
  - rewrite list_lookup_insert_eq by (rewrite length_app; simpl; lia). reflexivity.
  - by rewrite lookup_app_r, Nat.sub_diag.
  - rewrite list_lookup_insert_ne by lia. by apply lookup_app_l_Some.
  - by apply lookup_app_l_Some.
  - intros n. rewrite lookup_insert_Some. intros [[_ ?]|[Hne Hn']]; [lia|].
    destruct Hne.
    eapply wf_registry_inj; [by apply reachable_wf|exact Hp|exact Hn'].
Qed.

Lemma Stream_reply (content : list string) (reply : string) :
  foldl (λ acc c, acc +:+ (c +:+ nl)) reply content
  = reply +:+ strings_Join ((λ c, c +:+ nl) <$> content).
Proof.
  revert reply. induction content as [|c content IH]; intros reply; simpl.
  - by rewrite string_app_nil_r.
  - by rewrite IH, string_app_assoc.
Qed.

(** X18. [Stream], [DescRule] and [ShowRules] never panic and change
    nothing but the store.  [Stream] appends the lines of the result,
    each with a newline, to what [*reply] held; [DescRule] and
    [ShowRules] overwrite it.  An error of the processor is returned
    with the prefix of the handler and leaves [*reply] as it was. *)
Theorem processor_handlers stream name reply st :
  Stream stream reply st
  = Some (match ExecStmt stream (store st) with
          | (Val content, s') =>
              ((reply +:+ strings_Join ((λ c, c +:+ nl) <$> content), None),
               set_store s' st)
          | (Fail e, s') =>
              ((reply, Some (errorString ("Stream command error: " +:+ Error e))),
               set_store s' st)
          end) ∧
  DescRule name reply st
  = Some (match ExecDesc name (store st) with
          | (Val r, s') => ((r, None), set_store s' st)
          | (Fail e, s') =>
              ((reply, Some (errorString ("Desc rule error : " +:+ Error e +:+ "."))),
               set_store s' st)
          end) ∧
  (ShowRules reply st
   = Some (match ExecShow (store st) with
           | (Val r, s') => ((r, None), set_store s' st)
           | (Fail e, s') =>
               ((reply, Some (errorString ("Show rule error : " +:+ Error e +:+ "."))),
                set_store s' st)
           end)).
Proof.
  split_and!; unfold_M.
  - destruct (ExecStmt stream (store st)) as [[content|e] s']; simpl; [|done].
    by rewrite Stream_reply.
  - by destruct (ExecDesc name (store st)) as [[r|e] s'].
  - by destruct (ExecShow (store st)) as [[r|e] s'].
Qed.

End More.

(** *** StartUp *)

Section StartUp.

Context {Store Rule Topo : Type}.
Context `{!TopologyOps Topo} `{!RuleProcessor Store Rule Topo} `{!GoLib}.
Context `{!RuleLister Store}.
Implicit Types st : @ServerState Store Topo.

Lemma StartRule_logs name reply st r st' :
  StartRule name reply st = Some (r, st') → logs st' = logs st.
Proof. intros Hs. by run_M. Qed.

(** The state [StartRule] leaves depends neither on [*reply] nor on the
    log. *)
Lemma StartRule_no_logs name reply reply' st1 st2 :
  no_logs st1 = no_logs st2 →
  (λ x, (x.1.2, no_logs x.2)) <$> StartRule name reply st1
  = (λ x, (x.1.2, no_logs x.2)) <$> StartRule name reply' st2.
Proof.
  intros He. destruct st1, st2. unfold no_logs, set_logs in He.
  simpl in He. injection He as -> -> -> -> -> ->. unfold_M. simpl.
  repeat (case_match; simplify_eq/=); done.
Qed.


Lemma start_rules_run rules reply st1 st2 :
  no_logs st1 = no_logs st2 →
  (λ x, no_logs x.2) <$> start_rules rules reply st1
  = (λ x, no_logs x.2) <$> run (EStartRule <$> rules) st2.
Proof.
  revert reply st1 st2. induction rules as [|rule rules IH]; intros reply st1 st2 He.
  - simpl. unfold mret, M_ret. simpl. by f_equal.
  - rewrite fmap_cons, run_cons. simpl. unfold serve. cbv [mbind M_bind mret M_ret].
    pose proof (StartRule_no_logs rule reply EmptyString st1 st2 He) as Hs.
    destruct (StartRule rule reply st1) as [[[reply1 err1] st1']|],
             (StartRule rule EmptyString st2) as [[[reply2 err2] st2']|];
      simplify_eq/=; [|done].
    destruct err2; unfold log_Print, modify; simpl; apply IH;
      unfold no_logs, set_logs; simpl; by f_equal.
Qed.

Lemma run_StartRule_completes rules st :
  wf st → monitors_ok st → is_Some (run (EStartRule <$> rules) st).
Proof.
  revert st. induction rules as [|rule rules IH]; intros st Hwf Hm; [by eexists|].
  rewrite fmap_cons, run_cons.
  destruct (step (EStartRule rule) st) as [[[] st1]|] eqn:Hs.
  - apply IH; [by eapply step_wf|by eapply step_monitors_ok].
  - by destruct (step_panics _ _ Hwf Hm Hs).
Qed.

Lemma start_rules_logs rules reply st st' :
  start_rules rules reply st = Some (tt, st') →
  length (logs st') = length (logs st) + length rules.
Proof.
  revert reply st. induction rules as [|rule rules IH]; intros reply st Hs.
  - simpl in Hs. unfold mret, M_ret in Hs. simplify_eq. simpl. lia.
  - simpl in Hs. cbv [mbind M_bind] in Hs.
    destruct (StartRule rule reply st) as [[[reply1 err1] st1]|] eqn:Hst; [|done].
    apply StartRule_logs in Hst.
    destruct err1; simpl in Hs; apply IH in Hs; simpl in Hs;
      rewrite length_app, Hst in Hs; simpl in *; lia.
Qed.

(** X17. [StartUp], from the making of the registry to the end of the
    loop over the rules.  When [GetAllRules] fails, one line is logged
    and nothing is started.  Otherwise the loop never panics, logs one
    line per rule after "Starting rules", and leaves, the log apart, the
    state that serving [StartRule] for each name in turn leaves: a rule
    that fails to start does not stop the loop. *)
Theorem StartUp_rules_starts_all (s : Store) q :
  match GetAllRules s with
  | (Fail e, s') =>
      StartUp_rules (startup s q)
      = Some (tt, set_logs (λ _, ["Start rules error: " +:+ Error e])
                    (startup (Topo := Topo) s' q))
  | (Val rules, s') =>
      ∃ st' st'',
        StartUp_rules (startup s q) = Some (tt, st') ∧
        length (logs st') = S (length rules) ∧
        run (EStartRule <$> rules) (startup s' q) = Some (tt, st'') ∧
        no_logs st' = no_logs st''
  end.
Proof.
  destruct (GetAllRules s) as [[rules|e] s'] eqn:Hg.
  - destruct (run_StartRule_completes rules (startup (Topo := Topo) s' q))
      as [[[] st''] Hrun].
    { apply startup_wf. }
    { intros i g Hi. simpl in Hi. by rewrite lookup_nil in Hi. }
    pose proof (start_rules_run rules EmptyString
      (set_logs (λ l, l ++ ["Starting rules"]) (startup s' q)) (startup s' q) eq_refl)
      as Href.
    rewrite Hrun in Href. simpl in Href.
    destruct (start_rules rules EmptyString _) as [[[] st']|] eqn:Hst; [|done].
    simpl in Href. simplify_eq.
    exists st', st''. split_and!.
    + unfold StartUp_rules, processor.
      cbv [mbind M_bind mret M_ret modify read log_Print].
      simpl. rewrite Hg. simpl. exact Hst.
    + apply start_rules_logs in Hst. simpl in Hst. lia.
    + done.
    + unfold no_logs, set_logs. by f_equal.
  - unfold StartUp_rules, processor. cbv [mbind M_bind mret M_ret modify read log_Print].
    simpl. by rewrite Hg.
Qed.

End StartUp.

(** ** The theorems at work on the instance [Demo] *)

Import Demo.

Lemma after_reachable tr :
  run tr start = Some (tt, after tr) → reachable (after tr).
Proof. intros Hr. by exists [], (mkQueryResult [] 0), tr. Qed.

Lemma StopRule_not_found_witness :
  StopRule "nope" EmptyString start
  = Some (("Rule nope was not found.", None), start).
Proof.
  apply (StopRule_not_found "nope" EmptyString start). vm_compute. reflexivity.
Defined.

Lemma GetQueryResult_query_died_witness :
  GetQueryResult EmptyString EmptyString 5 (after query_died)
  = Some ((EmptyString, Some (errorString "source closed")), after query_died).
Proof.
  apply (GetQueryResult_query_died EmptyString EmptyString 5 (after query_died)
           0 (mkRuleState QUERY_RULE_ID 0 true)
           (ended (errorString "source closed"))
           {| Err := Some (errorString "source closed") |}
           (errorString "source closed")); vm_compute; reflexivity.
Defined.

Lemma GetStatusRule_deadline_witness :
  GetStatusRule "r1" EmptyString (after deadline_hit)
  = Some (("Stopped: deadline exceed.", None), after deadline_hit)
  ∧ metrics_block "Stopped: deadline exceed." = false.
Proof.
  apply (GetStatusRule_deadline "r1" EmptyString (after deadline_hit)
           0 (mkRuleState "r1" 0 true) (ended context_DeadlineExceeded)
           {| Err := Some context_DeadlineExceeded |}); vm_compute; reflexivity.
Defined.

Lemma watchdog_tick_reclaims_witness :
  (∃ st', watchdog_tick 10000000000 (after query_idle) = Some (tt, st') ∧
          registry st' !! QUERY_RULE_ID = None ∧
          topo_heap st' = [Cancel new_topo]) ∧
  watchdog_tick 9999999999 (after query_idle) = Some (tt, after query_idle) ∧
  watchdog_tick 10000000000 start = Some (tt, start).
Proof.
  split_and!.
  - destruct (proj1 (proj2 (watchdog_tick_reclaims 10000000000 (after query_idle)))
                0 (mkRuleState QUERY_RULE_ID 0 true) new_topo)
      as (st' & Ht & Hreg & Htopo & _);
      [vm_compute; reflexivity| vm_compute; reflexivity| vm_compute; reflexivity| |].
    + vm_compute. discriminate.
    + exists st'. split; [exact Ht|]. split; [|exact Htopo].
      rewrite Hreg. apply lookup_delete_eq.
  - apply (proj2 (proj2 (watchdog_tick_reclaims 9999999999 (after query_idle)))).
    right. vm_compute. reflexivity.
  - apply (proj2 (proj2 (watchdog_tick_reclaims 10000000000 start))).
    left. vm_compute. reflexivity.
Defined.

Lemma CreateQuery_failure_drops_previous_witness :
  ∃ st', CreateQuery EmptyString "unchanged" (after query_idle)
         = Some (("unchanged", Some (errorString "empty query")), st') ∧
         registry st' !! QUERY_RULE_ID = None ∧
         registry st' = delete QUERY_RULE_ID (registry (after query_idle)) ∧
         topo_heap st' = <[0 := Cancel new_topo]> (topo_heap (after query_idle)) ∧
         rule_heap st' = rule_heap (after query_idle).
Proof.
  apply (CreateQuery_failure_drops_previous EmptyString "unchanged"
           (after query_idle) 0 (mkRuleState QUERY_RULE_ID 0 true) new_topo
           (errorString "empty query") []); vm_compute; reflexivity.
Defined.

(** C1, on a run. The rule r1 is registered and running; [DropRule]
    succeeds, the store forgets the rule, and the registry still holds
    the entry of r1, now with [Triggered] false: [GetStatusRule] goes on
    answering for the dropped rule and [StartRule] starts it again,
    where without the entry it would fail with the store's "not found". *)
Theorem DropRule_keeps_entry :
  registry (after rule_running) !! "r1" = Some 0 ∧
  store (after rule_running) = ["r1"] ∧
  ∃ st', DropRule "r1" EmptyString (after rule_running)
         = Some (("Rule r1 is dropped.", None), st') ∧
         store st' = ([] : list string) ∧
         registry st' !! "r1" = Some 0 ∧
         rule_heap st' !! 0 = Some (mkRuleState "r1" 0 false) ∧
         GetStatusRule "r1" EmptyString st'
         = Some (("Stopped: canceled manually.", None), st') ∧
         (fst <$> StartRule "r1" EmptyString st')
         = Some ("Rule r1 was started", None) ∧
         (fst <$> StartRule "r1" EmptyString
                    (set_registry (delete "r1") st'))
         = Some (EmptyString, Some (errorString "Rule r1 is not found.")).
Proof.
  split; [by vm_compute|]. split; [by vm_compute|].
  eexists. split; [vm_compute; reflexivity|]. split_and!; by vm_compute.
Qed.

(** C3, on a run. With two fragments in the buffer and no query entry,
    [GetQueryResult] returns them joined and sets [LastFetch], and the
    buffer it leaves is [make([]string, 10)]: ten empty fragments, not
    none. *)
Theorem GetQueryResult_leaves_ten_fragments :
  ∃ st', GetQueryResult EmptyString EmptyString 7
           (startup (Store := list string) (Topo := topo) []
              (mkQueryResult ["a"; "b"] 0))
         = Some (("ab", None), st') ∧
         LastFetch (QR st') = 7%Z ∧
         Results (QR st') = replicate 10 EmptyString ∧
         length (Results (QR st')) = 10.
Proof. eexists. split; [vm_compute; reflexivity|]. split_and!; by vm_compute. Qed.

(** C2 fails as stated: r1 is registered and running, [RestartRule]
    succeeds, and the topology of r1 after the call is the topology it
    had before; no topology was created. *)
Lemma RestartRule_same_topology :
  (λ r, metrics_block r.1.1) <$> GetStatusRule "r1" EmptyString (after rule_running)
  = Some true ∧
  handle_of "r1" (after rule_running) = Some 0 ∧
  ∃ st', RestartRule "r1" EmptyString (after rule_running)
         = Some (("Rule r1 was restarted.", None), st') ∧
         handle_of "r1" st' = Some 0 ∧
         ¬ (handle_of "r1" st' ≠ handle_of "r1" (after rule_running)) ∧
         length (topo_heap st') = length (topo_heap (after rule_running)).
Proof.
  split; [by vm_compute|]. split; [by vm_compute|].
  eexists. split; [vm_compute; reflexivity|].
  split; [by vm_compute|]. split; [|by vm_compute].
  intros Hne. by apply Hne.
Qed.

Lemma RestartRule_keeps_topology_witness :
  ∃ st' rs',
    RestartRule "r1" EmptyString (after rule_running)
    = Some (("Rule r1 was restarted.", None), st') ∧
    registry st' !! "r1" = Some 0 ∧
    rule_heap st' !! 0 = Some rs' ∧
    Triggered rs' = true ∧
    Topology rs' = 0 ∧
    topo_heap st' = <[0 := Cancel (Open new_topo)]> (topo_heap (after rule_running)) ∧
    goroutines st' = goroutines (after rule_running) ++ [Spawned 0].
Proof.
  apply (RestartRule_keeps_topology "r1" EmptyString (after rule_running)
           0 (mkRuleState "r1" 0 true) (Open new_topo)); vm_compute; reflexivity.
Defined.

(** C5 fails as stated: the entry of the ad-hoc query is registered,
    [StopRule] on the reserved name returns, then a tick of the watchdog
    finds [LastFetch] ten seconds old and removes the entry; no start
    happened, and [GetStatusRule] fails with "not found" instead of
    replying "Stopped: canceled manually.". *)
Lemma StopRule_status_after_reclaim :
  reachable (after query_idle) ∧
  is_Some (registry (after query_idle) !! QUERY_RULE_ID) ∧
  ∃ st1 st2,
    StopRule QUERY_RULE_ID EmptyString (after query_idle)
    = Some (("Rule internal-xstream_query_rule was stopped.", None), st1) ∧
    no_start QUERY_RULE_ID [ETick 10000000000] st1 = true ∧
    run [ETick 10000000000] st1 = Some (tt, st2) ∧
    GetStatusRule QUERY_RULE_ID EmptyString st2
    = Some ((EmptyString,
             Some (errorString "Rule internal-xstream_query_rule is not found")),
            st2) ∧
    GetStatusRule QUERY_RULE_ID EmptyString st2
    ≠ Some (("Stopped: canceled manually.", None), st2).
Proof.
  split; [apply after_reachable; vm_compute; reflexivity|].
  split; [eexists; vm_compute; reflexivity|].
  eexists _, _. split; [vm_compute; reflexivity|]. split; [by vm_compute|].
  split; [vm_compute; reflexivity|]. split; [vm_compute; reflexivity|].
  vm_compute. discriminate.
Qed.

Lemma StopRule_then_status_witness :
  GetStatusRule "r1" EmptyString
    (after (rule_running ++ [EStopRule "r1"] ++ after_stop))
  = Some (("Stopped: canceled manually.", None),
          after (rule_running ++ [EStopRule "r1"] ++ after_stop))
  ∧ metrics_block "Stopped: canceled manually." = false.
Proof.
  apply (StopRule_then_status "r1" EmptyString (after rule_running)
           ("Rule r1 was stopped.", None)
           (after (rule_running ++ [EStopRule "r1"])) after_stop
           (after (rule_running ++ [EStopRule "r1"] ++ after_stop))
           EmptyString).
  - apply after_reachable. vm_compute. reflexivity.
  - exists 0. vm_compute. reflexivity.
  - vm_compute. reflexivity.
  - vm_compute. reflexivity.
  - vm_compute. reflexivity.
  - left. discriminate.
Defined.

Lemma CreateQuery_twice_witness :
  ∃ st1 st2 p2 tp1,
    CreateQuery "select a from demo" EmptyString start
    = Some (("Query was submit successfully.", None), st1) ∧
    CreateQuery "select b from demo" EmptyString st1
    = Some (("Query was submit successfully.", None), st2) ∧
    handle_of QUERY_RULE_ID st1 = Some tp1 ∧
    topo_heap st2 !! tp1 = Some (Cancel new_topo) ∧
    registry st2 !! QUERY_RULE_ID = Some p2 ∧
    (∀ n p rs, registry st2 !! n = Some p → rule_heap st2 !! p = Some rs →
               Name rs = QUERY_RULE_ID → n = QUERY_RULE_ID ∧ p = p2) ∧
    CreateQuery_traced "select b from demo" EmptyString st1
    = Some (("Query was submit successfully.", None), st2,
            [call_Log "stop the query."; call_Cancel tp1;
             call_delete QUERY_RULE_ID;
             call_ExecQuery QUERY_RULE_ID "select b from demo";
             call_put QUERY_RULE_ID p2;
             call_Log "Query was submit successfully."]).
Proof.
  destruct (CreateQuery_twice "select a from demo" "select b from demo"
              EmptyString EmptyString start new_topo [] new_topo [])
    as (_ & _ & _ & st1 & stm & st2 & p1 & p2 & tp1 & tp2 & calls1 & Hc1 & Hp1
        & Hrs1 & _ & _ & _ & _ & _ & Hc2 & Hp2 & _ & _ & Hcan & _ & _ & Huniq
        & _ & Hcalls2).
  - exists [], (mkQueryResult [] 0), []. reflexivity.
  - vm_compute. reflexivity.
  - vm_compute. reflexivity.
  - exists st1, st2, p2, tp1. split_and!; try assumption.
    unfold handle_of. rewrite Hp1. simpl. rewrite Hrs1. reflexivity.
Defined.

(** *** The further properties on the instance *)

Lemma reachable_registry_consistent_witness :
  ∃ rs t, rule_heap (after rule_running) !! 0 = Some rs ∧ Name rs = "r1" ∧
          topo_heap (after rule_running) !! Topology rs = Some t.
Proof.
  apply (proj1 (reachable_registry_consistent (after rule_running)
                  (after_reachable rule_running eq_refl)) "r1" 0).
  vm_compute. reflexivity.
Defined.

Lemma step_panics_exactly_witness :
  step (EGetStatusRule "r1") (after bad_metrics) = None.
Proof.
  apply (proj2 (step_panics_exactly (EGetStatusRule "r1") (after bad_metrics)
                  (after_reachable bad_metrics eq_refl))).
  exists 0, (mkRuleState "r1" 0 true), short_metrics, {| Err := None |},
    ["a"; "b"], [MOther "1"].
  split_and!; first [vm_compute; reflexivity | simpl; lia].
Defined.

Lemma run_RuleState_fields_witness :
  ∃ rs', rule_heap (after (rule_running ++ stop_restart_drop)) !! 0 = Some rs' ∧
         Name rs' = "r1" ∧ Topology rs' = 0.
Proof.
  apply (run_RuleState_fields stop_restart_drop (after rule_running)
           (after (rule_running ++ stop_restart_drop)) 0
           (mkRuleState "r1" 0 true)); vm_compute; reflexivity.
Defined.

Lemma step_Triggered_changes_witness :
  ∃ name, registry (after rule_running) !! name = Some 0 ∧
          (EStopRule (Topo := topo) "r1" = EStopRule name ∨
           EStopRule (Topo := topo) "r1" = EDropRule name).
Proof.
  apply (step_Triggered_changes (EStopRule "r1") (after rule_running)
           (after (rule_running ++ [EStopRule "r1"])) 0
           (mkRuleState "r1" 0 true) (mkRuleState "r1" 0 false));
    [vm_compute; reflexivity..|discriminate].
Defined.

Lemma GetStatusRule_reads_witness :
  start = start ∧
  match registry start !! "nope" with
  | Some _ => Some (errorString "Rule nope is not found") = None
  | None => Some (errorString "Rule nope is not found")
            = Some (errorString ("Rule " +:+ "nope" +:+ " is not found"))
            ∧ "old" = "old"
  end.
Proof.
  apply (GetStatusRule_reads "nope" "old" start "old"
           (Some (errorString "Rule nope is not found")) start).
  vm_compute. reflexivity.
Defined.

Lemma GetStatusRule_metrics_iff_witness :
  metrics_block "Stopped: canceled manually." = true ↔
  ∃ p rs t c,
    registry (after (rule_running ++ [EStopRule "r1"])) !! "r1" = Some p ∧
    rule_heap (after (rule_running ++ [EStopRule "r1"])) !! p = Some rs ∧
    Triggered rs = true ∧
    topo_heap (after (rule_running ++ [EStopRule "r1"])) !! Topology rs = Some t ∧
    GetContext t = Some c ∧ Err c = None.
Proof.
  apply (GetStatusRule_metrics_iff "r1" EmptyString
           (after (rule_running ++ [EStopRule "r1"]))
           "Stopped: canceled manually."
           (after (rule_running ++ [EStopRule "r1"]))).
  vm_compute. reflexivity.
Defined.

Lemma GetStatusRule_running_witness :
  GetStatusRule "r1" EmptyString (after rule_running)
  = Some (("Running with metrics:" +:+ nl +:+
           default (metrics_text ["source_in"; "sink_status"]
                      [MOther "0"; MString "ok"])
                   (json_Indent (metrics_text ["source_in"; "sink_status"]
                                   [MOther "0"; MString "ok"])), None),
          after rule_running).
Proof.
  apply (GetStatusRule_running "r1" EmptyString (after rule_running) 0
           (mkRuleState "r1" 0 true) (Open new_topo) {| Err := None |}
           ["source_in"; "sink_status"] [MOther "0"; MString "ok"]);
    first [vm_compute; reflexivity | simpl; lia].
Defined.

Lemma buffered_alive : query_alive buffered.
Proof. intros p Hp. vm_compute in Hp. discriminate. Qed.

Lemma GetQueryResult_round_trip_witness :
  ∃ st1 st2,
    GetQueryResult EmptyString EmptyString 5 buffered
    = Some ((strings_Join (Results (QR buffered)), None), st1) ∧
    LastFetch (QR st1) = 5%Z ∧
    strings_Join (Results (QR st1)) = EmptyString ∧
    GetQueryResult EmptyString EmptyString 6 (sink_append ["c"; "d"] st1)
    = Some ((strings_Join ["c"; "d"], None), st2) ∧
    LastFetch (QR st2) = 6%Z.
Proof.
  apply (GetQueryResult_round_trip EmptyString EmptyString EmptyString 5 6
           ["c"; "d"] buffered).
  intros p Hp. vm_compute in Hp. discriminate.
Defined.

Lemma fetch_keeps_query_witness :
  ∃ st1, GetQueryResult EmptyString EmptyString 5000000000 (after query_idle)
         = Some ((strings_Join (Results (QR (after query_idle))), None), st1) ∧
         registry st1 = registry (after query_idle) ∧
         watchdog_tick 14999999999 st1 = Some (tt, st1).
Proof.
  apply (fetch_keeps_query EmptyString EmptyString 5000000000 14999999999
           (after query_idle)).
  - intros p Hp. exists (mkRuleState QUERY_RULE_ID 0 true), new_topo.
    vm_compute in Hp. injection Hp as <-. split_and!; vm_compute; reflexivity.
  - vm_compute. reflexivity.
Defined.

Lemma watchdog_then_fetch_witness :
  ∃ st1 st2,
    watchdog_tick 10000000000 (after query_died) = Some (tt, st1) ∧
    registry st1 !! QUERY_RULE_ID = None ∧
    GetQueryResult EmptyString EmptyString 10000000001 st1
    = Some ((strings_Join (Results (QR (after query_died))), None), st2) ∧
    LastFetch (QR st2) = 10000000001%Z.
Proof.
  apply (watchdog_then_fetch EmptyString EmptyString 10000000000 10000000001
           (after query_died) 0 (mkRuleState QUERY_RULE_ID 0 true)
           (ended (errorString "source closed")));
    try (vm_compute; reflexivity).
  vm_compute. discriminate.
Defined.

Lemma watchdog_tick_frame_witness :
  (∀ name, name ≠ QUERY_RULE_ID →
           registry (after (query_idle ++ [ETick 10000000000])) !! name
           = registry (after query_idle) !! name) ∧
  rule_heap (after (query_idle ++ [ETick 10000000000]))
  = rule_heap (after query_idle) ∧
  QR (after (query_idle ++ [ETick 10000000000])) = QR (after query_idle) ∧
  store (after (query_idle ++ [ETick 10000000000])) = store (after query_idle) ∧
  goroutines (after (query_idle ++ [ETick 10000000000]))
  = goroutines (after query_idle) ∧
  watchdog_tick 10000000000 (after (query_idle ++ [ETick 10000000000]))
  = Some (tt, after (query_idle ++ [ETick 10000000000])).
Proof.
  apply (watchdog_tick_frame 10000000000 (after query_idle)
           (after (query_idle ++ [ETick 10000000000]))).
  vm_compute. reflexivity.
Defined.

Lemma StartRule_repeated_witness :
  ∃ st', run (replicate 3 (EStartRule "r1")) (after rule_running)
         = Some (tt, st') ∧
         goroutines st'
         = goroutines (after rule_running) ++ replicate 3 (Spawned 0) ∧
         rule_heap st'
         = <[0 := with_Triggered true (mkRuleState "r1" 0 true)]>
             (rule_heap (after rule_running)) ∧
         registry st' = registry (after rule_running) ∧
         store st' = store (after rule_running) ∧
         topo_heap st' = topo_heap (after rule_running).
Proof.
  apply (StartRule_repeated "r1" 2 (after rule_running) 0
           (mkRuleState "r1" 0 true)); vm_compute; reflexivity.
Defined.

Lemma StartRule_failure_witness :
  registry start !! "nope" = None ∧ "old" = "old" ∧
  start = set_store (store start) start.
Proof.
  apply (StartRule_failure "nope" "old" start "old"
           (errorString "Rule nope is not found.") start).
  vm_compute. reflexivity.
Defined.

Lemma RestartRule_not_registered_witness :
  RestartRule "nope" EmptyString start
  = (λ '((reply', err), st'),
       (match err with
        | Some _ => (reply', err)
        | None => ("Rule " +:+ "nope" +:+ " was restarted.", None)
        end, st'))
    <$> StartRule "nope" ("Rule " +:+ "nope" +:+ " was not found.") start.
Proof.
  apply (RestartRule_not_registered "nope" EmptyString start).
  vm_compute. reflexivity.
Defined.

Lemma DropRule_outcome_witness :
  registry (after (rule_running ++ [EDropRule "r1"]))
  = registry (after rule_running) ∧
  match ExecDrop "r1" (store (after rule_running)) with
  | (Fail e, s') =>
      None = Some (errorString ("Drop rule error : " +:+ Error e +:+ ".")) ∧
      "Rule r1 is dropped." = EmptyString ∧
      after (rule_running ++ [EDropRule "r1"]) = set_store s' (after rule_running)
  | (Val r, s') =>
      None = None (A := error) ∧ "Rule r1 is dropped." = r ∧
      store (after (rule_running ++ [EDropRule "r1"])) = s' ∧
      ∀ p, registry (after rule_running) !! "r1" = Some p →
           ∃ rs t, rule_heap (after rule_running) !! p = Some rs ∧
                   topo_heap (after rule_running) !! Topology rs = Some t ∧
                   rule_heap (after (rule_running ++ [EDropRule "r1"]))
                   = <[p := with_Triggered false rs]> (rule_heap (after rule_running)) ∧
                   topo_heap (after (rule_running ++ [EDropRule "r1"]))
                   = <[Topology rs := Cancel t]> (topo_heap (after rule_running))
  end.
Proof.
  apply (DropRule_outcome "r1" EmptyString (after rule_running)
           "Rule r1 is dropped." None (after (rule_running ++ [EDropRule "r1"]))).
  vm_compute. reflexivity.
Defined.

Lemma CreateRule_orphans_witness :
  ∃ rs t st',
    rule_heap (after (rule_running ++ [EDropRule "r1"])) !! 0 = Some rs ∧
    topo_heap (after (rule_running ++ [EDropRule "r1"])) !! Topology rs = Some t ∧
    CreateRule "r1" "{}" EmptyString (after (rule_running ++ [EDropRule "r1"]))
    = Some (("Rule " +:+ "r1" +:+
             " was created, please use 'cli getstatus rule $rule_name' command to get rule status.",
             None), st') ∧
    registry st' !! "r1"
    = Some (length (rule_heap (after (rule_running ++ [EDropRule "r1"])))) ∧
    rule_heap st' !! length (rule_heap (after (rule_running ++ [EDropRule "r1"])))
    = Some (mkRuleState "r1"
              (length (topo_heap (after (rule_running ++ [EDropRule "r1"])))) true) ∧
    topo_heap st' !! length (topo_heap (after (rule_running ++ [EDropRule "r1"])))
    = Some new_topo ∧
    rule_heap st' !! 0 = Some rs ∧
    topo_heap st' !! Topology rs = Some t ∧
    (∀ n, registry st' !! n ≠ Some 0).
Proof.
  assert (Hreach : reachable (after (rule_running ++ [EDropRule "r1"])))
    by (apply after_reachable; vm_compute; reflexivity).
  exact (CreateRule_orphans "r1" "{}" EmptyString
           (after (rule_running ++ [EDropRule "r1"])) "r1" ["r1"] new_topo ["r1"] 0
           Hreach eq_refl eq_refl eq_refl).
Defined.
